(** * Selection and keyboard-navigation controllers of the lion components

    A shallow embedding of the tab group ([LionTabs]) and of the rich select
    ([LionSelectRich], [LionSelectInvoker]) together with the properties of
    their selection state, keyboard policy, registry rebuild and invoker
    mirror. *)

From stdpp Require Import gmap strings list fin_maps pretty.
From Stdlib Require Import ZArith Lia.

Open Scope string_scope.

Set Warnings "-register-all".

(** * The tab group: [LionTabs] *)

Module Tabs.

(** ** DOM elements

    A function object has an identity ([fnId], given out when the function
    expression is evaluated) and a body.  [addEventListener] and
    [removeEventListener] compare function objects by identity. *)

Inductive FnBody : Type :=
  | ClickHandler (index : nat)   (* () => { this.selectedIndex = index; } *)
  | KeydownHandler               (* this.__handleButtonKeydown.bind(this) *)
  | PreventDefaultFn.            (* e => e.preventDefault() *)

Record Fn : Type := mkFn { fnId : nat; fnBody : FnBody }.

Record Listener : Type := mkListener { evType : string; evFn : Fn }.

Record Element : Type := mkElement {
  slot : string;
  attrs : gmap string string;
  listeners : list Listener;
  elementChildren : list nat   (* element.children: the child elements *)
}.

#[global] Instance FnBody_eq_dec : EqDecision FnBody.
Proof. solve_decision. Defined.
#[global] Instance Fn_eq_dec : EqDecision Fn.
Proof. solve_decision. Defined.
#[global] Instance Listener_eq_dec : EqDecision Listener.
Proof. solve_decision. Defined.
#[global] Instance Element_eq_dec : EqDecision Element.
Proof. solve_decision. Defined.

Definition setAttribute (name value : string) (e : Element) : Element :=
  mkElement (slot e) (<[name := value]> (attrs e)) (listeners e) (elementChildren e).

Definition removeAttribute (name : string) (e : Element) : Element :=
  mkElement (slot e) (delete name (attrs e)) (listeners e) (elementChildren e).

Definition hasAttribute (name : string) (e : Element) : bool :=
  bool_decide (is_Some (attrs e !! name)).

Definition getAttribute (name : string) (e : Element) : option string :=
  attrs e !! name.

Definition sameListener (ty : string) (f : Fn) (l : Listener) : bool :=
  bool_decide (evType l = ty) && bool_decide (fnId (evFn l) = fnId f).

Definition addEventListener (ty : string) (f : Fn) (e : Element) : Element :=
  if existsb (sameListener ty f) (listeners e) then e
  else mkElement (slot e) (attrs e) (listeners e ++ [mkListener ty f])%list
                 (elementChildren e).

Definition removeEventListener (ty : string) (f : Fn) (e : Element) : Element :=
  mkElement (slot e) (attrs e)
            (List.filter (λ l, negb (sameListener ty f l)) (listeners e))
            (elementChildren e).

(** ** Component state *)

Record Entry : Type := mkEntry {
  uid : string;
  button : nat;
  panel : option nat;          (* panels[index], undefined when missing *)
  clickHandler : Fn;
  keydownHandler : Fn
}.

Record State : Type := mkState {
  heap : gmap nat Element;     (* every element, by identity *)
  children : list nat;         (* this.children, in document order *)
  store : option (list Entry); (* this.__store, undefined before setup *)
  selectedIndex : Z;           (* this.__selectedIndex *)
  firstUpdate : bool;          (* this.__firstUpdate *)
  focused : option nat;        (* the element that last received focus() *)
  dispatched : list string;    (* events dispatched on the host, in order *)
  warnings : list (nat * nat); (* console.warn: (tabs, panels) *)
  nextFn : nat;                (* identities of function objects *)
  nextUid : nat                (* seed of uuid() *)
}.

Definition set_heap (h : gmap nat Element) (s : State) : State :=
  mkState h (children s) (store s) (selectedIndex s) (firstUpdate s)
          (focused s) (dispatched s) (warnings s) (nextFn s) (nextUid s).
Definition set_children (c : list nat) (s : State) : State :=
  mkState (heap s) c (store s) (selectedIndex s) (firstUpdate s)
          (focused s) (dispatched s) (warnings s) (nextFn s) (nextUid s).
Definition set_store (st : option (list Entry)) (s : State) : State :=
  mkState (heap s) (children s) st (selectedIndex s) (firstUpdate s)
          (focused s) (dispatched s) (warnings s) (nextFn s) (nextUid s).
Definition set___selectedIndex (v : Z) (s : State) : State :=
  mkState (heap s) (children s) (store s) v (firstUpdate s)
          (focused s) (dispatched s) (warnings s) (nextFn s) (nextUid s).
Definition set_firstUpdate (b : bool) (s : State) : State :=
  mkState (heap s) (children s) (store s) (selectedIndex s) b
          (focused s) (dispatched s) (warnings s) (nextFn s) (nextUid s).
Definition set_focused (f : option nat) (s : State) : State :=
  mkState (heap s) (children s) (store s) (selectedIndex s) (firstUpdate s)
          f (dispatched s) (warnings s) (nextFn s) (nextUid s).
Definition set_dispatched (d : list string) (s : State) : State :=
  mkState (heap s) (children s) (store s) (selectedIndex s) (firstUpdate s)
          (focused s) d (warnings s) (nextFn s) (nextUid s).
Definition set_warnings (w : list (nat * nat)) (s : State) : State :=
  mkState (heap s) (children s) (store s) (selectedIndex s) (firstUpdate s)
          (focused s) (dispatched s) w (nextFn s) (nextUid s).
Definition set_nextFn (n : nat) (s : State) : State :=
  mkState (heap s) (children s) (store s) (selectedIndex s) (firstUpdate s)
          (focused s) (dispatched s) (warnings s) n (nextUid s).
Definition set_nextUid (n : nat) (s : State) : State :=
  mkState (heap s) (children s) (store s) (selectedIndex s) (firstUpdate s)
          (focused s) (dispatched s) (warnings s) (nextFn s) n.

(** A method call on the element [id]. *)
Definition onElement (f : Element → Element) (id : nat) (s : State) : State :=
  set_heap (alter f id (heap s)) s.

Definition focus (id : nat) (s : State) : State := set_focused (Some id) s.

Definition elementHas (s : State) (sl attr : string) (id : nat) : bool :=
  match heap s !! id with
  | Some e => bool_decide (slot e = sl) && hasAttribute attr e
  | None => false
  end.

Definition hasSlot (s : State) (sl : string) (id : nat) : bool :=
  match heap s !! id with
  | Some e => bool_decide (slot e = sl)
  | None => false
  end.

(** The element [id] followed by its descendants down to [depth] levels, in
    document order. *)
Fixpoint subtree (h : gmap nat Element) (depth : nat) (id : nat) : list nat :=
  id :: match depth with
        | O => []
        | S d =>
            match h !! id with
            | Some e => flat_map (subtree h d) (elementChildren e)
            | None => []
            end
        end.

(** [this.querySelectorAll('*')]: every descendant of the host, children and
    deeper, in document order.  No branch of a tree of elements is longer
    than the number of elements, which bounds the depth. *)
Definition descendants (s : State) : list nat :=
  flat_map (subtree (heap s) (size (heap s))) (children s).

(** [this.querySelectorAll('[slot="..."]')]: the descendants of the host, at
    any depth, that carry the slot name. *)
Definition querySlot (s : State) (sl : string) : list nat :=
  List.filter (hasSlot s sl) (descendants s).

(** ** Computations that may throw *)

Inductive Completion (A : Type) : Type :=
  | Normal (a : A)
  | Abrupt (err : string).
Arguments Normal {A} a.
Arguments Abrupt {A} err.

Definition M (A : Type) : Type := State → Completion A * State.

Definition ret {A} (a : A) : M A := λ s, (Normal a, s).
Definition throw {A} (err : string) : M A := λ s, (Abrupt err, s).
Definition bind {A B} (m : M A) (k : A → M B) : M B :=
  λ s, match m s with
       | (Normal a, s') => k a s'
       | (Abrupt e, s') => (Abrupt e, s')
       end.
Definition modify (f : State → State) : M unit := λ s, (Normal tt, f s).
Definition gets {A} (f : State → A) : M A := λ s, (Normal (f s), s).

#[global] Instance M_ret : MRet M := @ret.
#[global] Instance M_bind : MBind M := λ A B k m, bind m k.

Definition exec {A} (m : M A) (s : State) : State := snd (m s).
Definition threw {A} (m : M A) (s : State) : bool :=
  match fst (m s) with Normal _ => false | Abrupt _ => true end.

(** A new function object. *)
Definition newFn (body : FnBody) : M Fn :=
  λ s, (Normal (mkFn (nextFn s) body), set_nextFn (S (nextFn s)) s).

(** [uuid()]: a random string; here the next of a sequence. *)
Definition uuid : M string :=
  λ s, (Normal (pretty (nextUid s)), set_nextUid (S (nextUid s)) s).

Definition TypeError : string := "TypeError".

(** ** The helpers of the module *)

Definition setupPanel (element : option nat) (uid : string) : M unit :=
  match element with
  | None => throw TypeError
  | Some el =>
      modify (onElement (setAttribute "id" ("panel-" ++ uid)) el) ;;
      modify (onElement (setAttribute "role" "tabpanel") el) ;;
      modify (onElement (setAttribute "aria-labelledby" ("button-" ++ uid)) el)
  end.

Definition selectPanel (el : nat) (s : State) : State :=
  onElement (setAttribute "selected" "true") el s.

Definition deselectPanel (el : nat) (s : State) : State :=
  onElement (removeAttribute "selected") el s.

Definition setupButton (el : nat) (uid : string) (clickHandler keydownHandler : Fn)
  : M unit :=
  modify (onElement (setAttribute "id" ("button-" ++ uid)) el) ;;
  modify (onElement (setAttribute "role" "tab") el) ;;
  modify (onElement (setAttribute "aria-controls" ("panel-" ++ uid)) el) ;;
  modify (onElement (addEventListener "click" clickHandler) el) ;;
  modify (onElement (addEventListener "keyup" keydownHandler) el) ;;
  f ← newFn PreventDefaultFn;
  modify (onElement (addEventListener "keydown" f) el).

Definition cleanButton (el : nat) (clickHandler keydownHandler : Fn) : M unit :=
  modify (onElement (removeAttribute "id") el) ;;
  modify (onElement (removeAttribute "role") el) ;;
  modify (onElement (removeAttribute "aria-controls") el) ;;
  modify (onElement (removeEventListener "click" clickHandler) el) ;;
  modify (onElement (removeEventListener "keyup" keydownHandler) el) ;;
  f ← newFn PreventDefaultFn;
  modify (onElement (removeEventListener "keydown" f) el).

Definition selectButton (el : nat) (firstUpdate : bool) (s : State) : State :=
  let s1 := if firstUpdate then s else focus el s in
  let s2 := onElement (setAttribute "selected" "true") el s1 in
  let s3 := onElement (setAttribute "aria-selected" "true") el s2 in
  onElement (setAttribute "tabindex" "0") el s3.

Definition deselectButton (el : nat) (s : State) : State :=
  let s1 := onElement (removeAttribute "selected") el s in
  let s2 := onElement (setAttribute "aria-selected" "false") el s1 in
  onElement (setAttribute "tabindex" "-1") el s2.

(** ** The methods of [LionTabs] *)

(** [array[i]] for a number [i]: undefined out of range. *)
Definition at_index {A} (l : list A) (i : Z) : option A :=
  if decide (0 ≤ i)%Z then l !! Z.to_nat i else None.

Definition __updateSelected (s : State) : State :=
  match store s ≫= (λ st, at_index st (selectedIndex s)) with
  | None => s
  | Some entry =>
      let previousButton := List.find (elementHas s "tab" "selected") (children s) in
      let previousPanel := List.find (elementHas s "panel" "selected") (children s) in
      let s1 := match previousButton with
                | Some b => deselectButton b s | None => s end in
      let s2 := match previousPanel with
                | Some p => deselectPanel p s1 | None => s1 end in
      let s3 := selectButton (button entry) (firstUpdate s) s2 in
      match panel entry with
      | Some p => selectPanel p s3
      | None => s3
      end
  end.

Definition dispatchEvent (name : string) (s : State) : State :=
  set_dispatched (dispatched s ++ [name])%list s.

(** [set selectedIndex(value)].  [requestUpdate] only schedules a render. *)
Definition set_selectedIndex (value : Z) (s : State) : State :=
  let s1 := set_firstUpdate false s in
  let s2 := set___selectedIndex value s1 in
  let s3 := __updateSelected s2 in
  dispatchEvent "selected-changed" s3.

Definition _pairCount : M Z :=
  λ s, match store s with
       | Some st => (Normal (Z.of_nat (length st)), s)
       | None => (Abrupt TypeError, s)
       end.

Definition __createButtonClickHandler (index : nat) : M Fn :=
  newFn (ClickHandler index).

Record KeyEvent : Type := mkKeyEvent { key : string; defaultPrevented : bool }.

Definition preventDefault (e : KeyEvent) : KeyEvent := mkKeyEvent (key e) true.

Definition key_in (e : KeyEvent) (ks : list string) : bool :=
  bool_decide (key e ∈ ks).

Definition __handleButtonKeydown (e : KeyEvent) : M KeyEvent :=
  if key_in e ["ArrowDown"; "ArrowRight"] then
    i ← gets selectedIndex;
    n ← _pairCount;
    (if decide (i + 1 >= n)%Z
     then modify (set_selectedIndex 0)
     else modify (set_selectedIndex (i + 1))) ;;
    ret e
  else if key_in e ["ArrowUp"; "ArrowLeft"] then
    let e := preventDefault e in
    i ← gets selectedIndex;
    (if decide (i <= 0)%Z
     then n ← _pairCount; modify (set_selectedIndex (n - 1))
     else modify (set_selectedIndex (i - 1))) ;;
    ret e
  else if key_in e ["Home"] then
    let e := preventDefault e in
    modify (set_selectedIndex 0) ;; ret e
  else if key_in e ["End"] then
    let e := preventDefault e in
    n ← _pairCount;
    modify (set_selectedIndex (n - 1)) ;; ret e
  else ret e.

Fixpoint forEach {A} (f : A → nat → M unit) (l : list A) (index : nat) : M unit :=
  match l with
  | [] => ret tt
  | x :: l' => f x index ;; forEach f l' (S index)
  end.

Definition push (entry : Entry) (s : State) : State :=
  set_store (Some (default [] (store s) ++ [entry])%list) s.

(** The callback of [buttons.forEach] in [__setupStore]. *)
Definition setupEntry (panels : list nat) (button : nat) (index : nat) : M unit :=
  uid ← uuid;
  let panel := panels !! index in
  clickHandler ← __createButtonClickHandler index;
  keydownHandler ← newFn KeydownHandler;
  let entry := mkEntry uid button panel clickHandler keydownHandler in
  setupPanel panel uid ;;
  setupButton button uid clickHandler keydownHandler ;;
  modify (λ s, match panel with Some p => deselectPanel p s | None => s end) ;;
  modify (deselectButton button) ;;
  modify (push entry).

Definition __setupStore : M unit :=
  modify (set_store (Some [])) ;;
  buttons ← gets (λ s, querySlot s "tab");
  panels ← gets (λ s, querySlot s "panel");
  (if decide (length buttons ≠ length panels)
   then modify (λ s, set_warnings (warnings s ++ [(length buttons, length panels)])%list s)
   else mret tt) ;;
  forEach (setupEntry panels) buttons 0.

(** The callback of [this.__store.forEach] in [__cleanStore]. *)
Definition cleanEntry (entry : Entry) (index : nat) : M unit :=
  cleanButton (button entry) (clickHandler entry) (keydownHandler entry).

Definition __cleanStore : M unit :=
  λ s, match store s with
       | None => (Normal tt, s)
       | Some st => forEach cleanEntry st 0 s
       end.

(** The [slotchange] listener installed by [__setupSlots]. *)
Definition handleSlotChange : M unit :=
  __cleanStore ;; __setupStore ;; modify __updateSelected.

(** ** Life cycle *)

(** The element before its constructor runs. *)
Definition created (h : gmap nat Element) (cs : list nat) : State :=
  mkState h cs None 0 false None [] [] 0 0.

Definition constructor (s : State) : State := set_selectedIndex 0 s.

(** [firstUpdated]: [__setupSlots] installs [handleSlotChange] on the tab
    slot. *)
Definition firstUpdated (s : State) : State := set_firstUpdate true s.

(** The first [slotchange] follows the first render. *)
Definition initialize (h : gmap nat Element) (cs : list nat) : State :=
  exec handleSlotChange (firstUpdated (constructor (created h cs))).

(** The light DOM changes to the children [cs], and [slotchange] fires. *)
Definition slotchange (cs : list nat) (s : State) : State :=
  exec handleSlotChange (set_children cs s).

(** ** Event dispatch on a trigger *)

Definition runListener (f : Fn) (e : KeyEvent) : M KeyEvent :=
  match fnBody f with
  | ClickHandler index => modify (set_selectedIndex (Z.of_nat index)) ;; mret e
  | KeydownHandler => __handleButtonKeydown e
  | PreventDefaultFn => mret (preventDefault e)
  end.

(** Listeners run in registration order; an exception of one listener is
    reported and does not stop the others. *)
Fixpoint runListeners (ls : list Listener) (e : KeyEvent) (s : State)
  : KeyEvent * State :=
  match ls with
  | [] => (e, s)
  | l :: ls' =>
      match runListener (evFn l) e s with
      | (Normal e', s') => runListeners ls' e' s'
      | (Abrupt _, s') => runListeners ls' e s'
      end
  end.

Definition listenersOf (s : State) (ty : string) (target : nat) : list Listener :=
  match heap s !! target with
  | Some el => List.filter (λ l, bool_decide (evType l = ty)) (listeners el)
  | None => []
  end.

(** An event of type [ty] (with key [k]) delivered to the element [target]:
    the listeners registered on [target] run.  An event that bubbles is
    delivered in turn to each element on its way up. *)
Definition deliver (ty : string) (k : string) (target : nat) (s : State)
  : KeyEvent * State :=
  runListeners (listenersOf s ty target) (mkKeyEvent k false) s.

End Tabs.

(** * The rich select: [LionSelectRich] and [LionSelectInvoker] *)

Module SelectRich.

(** ** Values and DOM content *)

(** The value of an index property. *)
Inductive JsValue : Type :=
  | undefined
  | null
  | Num (n : Z).

#[global] Instance JsValue_eq_dec : EqDecision JsValue.
Proof. solve_decision. Defined.

Inductive Node : Type :=
  | TextNode (data : string)
  | ElementNode (tag : string) (childNodes : list Node).

(** An element and its descendant elements, in document order. *)
Fixpoint elementsIn (n : Node) : list Node :=
  match n with
  | TextNode _ => []
  | ElementNode _ cs => n :: flat_map elementsIn cs
  end.

Fixpoint textOf (n : Node) : string :=
  match n with
  | TextNode d => d
  | ElementNode _ cs => String.concat "" (map textOf cs)
  end.

(** [node.cloneNode(true)] *)
Fixpoint cloneNode (n : Node) : Node :=
  match n with
  | TextNode d => TextNode d
  | ElementNode t cs => ElementNode t (map cloneNode cs)
  end.

(** An option of the listbox. *)
Record OptionElement : Type := mkOption {
  optionDisabled : bool;
  optionChildNodes : list Node
}.

(** [option.querySelectorAll('*')] *)
Definition querySelectorAll_star (o : OptionElement) : list Node :=
  flat_map elementsIn (optionChildNodes o).

Definition textContent (o : OptionElement) : string :=
  String.concat "" (map textOf (optionChildNodes o)).

(** ** [LionSelectInvoker] *)

Record Invoker : Type := mkInvoker {
  selectedElement : option OptionElement;  (* null or undefined: [None] *)
  invokerDisabled : bool;
  invokerReadOnly : bool
}.

(** What [_contentTemplate] returns: an array of nodes or a string. *)
Inductive Template : Type :=
  | Nodes (ns : list Node)
  | Text (s : string).

Definition _contentTemplate (inv : Invoker) : Template :=
  match selectedElement inv with
  | Some el =>
      let labelNodes := querySelectorAll_star el in
      if decide (0 < length labelNodes)
      then Nodes (map cloneNode labelNodes)
      else Text (textContent el)
  | None => Text ""
  end.

(** ** Component state *)

Inductive FocusTarget : Type := ListboxNode | InvokerNode.

Record State : Type := mkState {
  disabled : bool;
  readOnly : bool;
  opened : bool;
  interactionMode : string;
  checkedIndex : JsValue;
  activeIndex : JsValue;
  formElements : list OptionElement;
  _invokerNode : option Invoker;     (* the child in the invoker slot *)
  focused : option FocusTarget
}.

Definition set_opened (b : bool) (s : State) : State :=
  mkState (disabled s) (readOnly s) b (interactionMode s) (checkedIndex s)
          (activeIndex s) (formElements s) (_invokerNode s) (focused s).
Definition set___checkedIndex (v : JsValue) (s : State) : State :=
  mkState (disabled s) (readOnly s) (opened s) (interactionMode s) v
          (activeIndex s) (formElements s) (_invokerNode s) (focused s).
Definition set___activeIndex (v : JsValue) (s : State) : State :=
  mkState (disabled s) (readOnly s) (opened s) (interactionMode s) (checkedIndex s)
          v (formElements s) (_invokerNode s) (focused s).
Definition set__invokerNode (i : option Invoker) (s : State) : State :=
  mkState (disabled s) (readOnly s) (opened s) (interactionMode s) (checkedIndex s)
          (activeIndex s) (formElements s) i (focused s).
Definition set_focused (f : option FocusTarget) (s : State) : State :=
  mkState (disabled s) (readOnly s) (opened s) (interactionMode s) (checkedIndex s)
          (activeIndex s) (formElements s) (_invokerNode s) f.

(** [array[v]]: only a number within the array names an element. *)
Definition at_value {A} (l : list A) (v : JsValue) : option A :=
  match v with
  | Num i => if decide (0 ≤ i)%Z then l !! Z.to_nat i else None
  | _ => None
  end.

(** [this.formElements[i] && !this.formElements[i].disabled] *)
Definition enabledAt (s : State) (i : Z) : bool :=
  match at_value (formElements s) (Num i) with
  | Some o => negb (optionDisabled o)
  | None => false
  end.

(** [v != null] *)
Definition notNull (v : JsValue) : bool :=
  match v with
  | Num _ => true
  | _ => false
  end.

(** [currentIndex + offset]: [None] is NaN. *)
Definition plus (v : JsValue) (offset : Z) : option Z :=
  match v with
  | undefined => None
  | null => Some offset
  | Num i => Some (i + offset)%Z
  end.

(** ** [LionSelectRich]: methods given in the source *)

Definition __syncInvokerElement (s : State) : State :=
  match _invokerNode s with
  | Some inv =>
      set__invokerNode
        (Some (mkInvoker (at_value (formElements s) (checkedIndex s))
                         (invokerDisabled inv) (invokerReadOnly inv))) s
  | None => s
  end.

Definition __toggleInvokerDisabled (s : State) : State :=
  match _invokerNode s with
  | Some inv =>
      set__invokerNode
        (Some (mkInvoker (selectedElement inv) (disabled s) (readOnly s))) s
  | None => s
  end.

(** [_requestUpdate(name, oldValue)]; the inherited part schedules a render. *)
Definition _requestUpdate (name : string) (s : State) : State :=
  let s := if bool_decide (name = "disabled") || bool_decide (name = "readOnly")
           then __toggleInvokerDisabled s else s in
  if bool_decide (name = "modelValue") then __syncInvokerElement s else s.

(** ** Inherited members, not in the sources *)

(** Modelled from the spec: the index setters live in [ListboxMixin], which is
    missing.  "out-of-range or pointing at a disabled entry is rejected (no
    state change, no notification)"; "input must be an integer". *)
Definition validIndex (s : State) (v : JsValue) : bool :=
  match v with
  | Num i => enabledAt s i
  | _ => false
  end.

(** Modelled from the spec: [checkedIndex]'s setter of the missing
    [ListboxMixin].  On success it "emits a change notification consumed by
    external observers (form value binding, invoker mirror)": the model value
    is written, which reaches [_requestUpdate('modelValue')]. *)
Definition setChecked (v : JsValue) (s : State) : State :=
  if validIndex s v
  then _requestUpdate "modelValue" (set___checkedIndex v s)
  else s.

(** Modelled from the spec: [activeIndex]'s setter of the missing
    [ListboxMixin]: "updates only the highlight/activedescendant linkage, does
    not move focus away from the listbox container, does not emit the commit
    notification"; invalid requests are "silently rejected". *)
Definition setActive (v : JsValue) (s : State) : State :=
  if validIndex s v then set___activeIndex v s else s.

(** Modelled from the spec: [__getNextEnabledOption] is called by [__onKeyUp]
    but inherited from the missing [ListboxMixin]; the file keeps a commented
    copy (lines 328-334), which is the spec's "wrap-free; clamps at bounds,
    skipping disabled entries".  [scanUp n i] is the loop with [n] iterations
    left at index [i]. *)
Fixpoint scanUp (s : State) (n : nat) (i : Z) : option Z :=
  match n with
  | O => None
  | S n' => if enabledAt s i then Some i else scanUp s n' (i + 1)%Z
  end.

Definition __getNextEnabledOption (s : State) (currentIndex : JsValue) (offset : Z)
  : JsValue :=
  match plus currentIndex offset with
  | Some i =>
      match scanUp s (Z.to_nat (Z.of_nat (length (formElements s)) - i)) i with
      | Some j => Num j
      | None => currentIndex
      end
  | None => currentIndex
  end.

(** Modelled from the spec: [__getPreviousEnabledOption], as the one above
    (commented copy at lines 337-344). *)
Fixpoint scanDown (s : State) (n : nat) (i : Z) : option Z :=
  match n with
  | O => None
  | S n' => if enabledAt s i then Some i else scanDown s n' (i - 1)%Z
  end.

Definition __getPreviousEnabledOption (s : State) (currentIndex : JsValue) (offset : Z)
  : JsValue :=
  match plus currentIndex offset with
  | Some i =>
      match scanDown s (Z.to_nat (i + 1)) i with
      | Some j => Num j
      | None => currentIndex
      end
  | None => currentIndex
  end.

(** ** Overlay *)

Definition focus (t : FocusTarget) (s : State) : State := set_focused (Some t) s.

(** The listeners of [__setupOverlay]. *)
Definition __overlayOnShow (s : State) : State :=
  let s := if notNull (checkedIndex s) then setActive (checkedIndex s) s else s in
  focus ListboxNode s.

Definition __overlayOnHide (s : State) : State := focus InvokerNode s.

(** Modelled from the spec: the overlay collaborator ([OverlayMixin] and its
    controller, not in the sources) "exposes open()/close()/toggle(), an isOpen
    observable, and show/hide notifications"; a change of [opened] shows or
    hides the overlay, which runs the listener registered for it. *)
Definition setOpened (b : bool) (s : State) : State :=
  if bool_decide (opened s = b) then s
  else if b then __overlayOnShow (set_opened true s)
       else __overlayOnHide (set_opened false s).

(** [this._overlayCtrl.toggle()], and [toggle()] *)
Definition toggle (s : State) : State := setOpened (negb (opened s)) s.

(** ** Event handlers *)

(** The result says whether [ev.preventDefault()] was called. *)
Definition __onKeyUp (key : string) (s : State) : bool * State :=
  if disabled s then (false, s)
  else if opened s then (false, s)
  else if bool_decide (key = "ArrowUp") then
    (true,
     if bool_decide (interactionMode s = "mac")
     then setOpened true s
     else setChecked (__getPreviousEnabledOption s (checkedIndex s) (-1)) s)
  else if bool_decide (key = "ArrowDown") then
    (true,
     if bool_decide (interactionMode s = "mac")
     then setOpened true s
     else setChecked (__getNextEnabledOption s (checkedIndex s) 1) s)
  else (false, s).

Definition __invokerOnClick (s : State) : State :=
  if negb (disabled s) && negb (readOnly s) then toggle s else s.

End SelectRich.

(** * Properties of the rich select *)

Module SelectRichProofs.
Import SelectRich.

(** ** The scans for an enabled option *)

Lemma scanUp_None s n i :
  scanUp s n i = None →
  ∀ j, (i ≤ j < i + Z.of_nat n)%Z → enabledAt s j = false.
Proof.
  revert i. induction n as [|n IH]; intros i H j Hj; [lia|].
  simpl in H. destruct (enabledAt s i) eqn:Hi; [discriminate|].
  destruct (decide (j = i)) as [->|Hne]; [done|].
  apply (IH (i + 1)%Z H). lia.
Qed.

Lemma scanUp_Some s n i r :
  scanUp s n i = Some r →
  (i ≤ r < i + Z.of_nat n)%Z ∧ enabledAt s r = true ∧
  ∀ j, (i ≤ j < r)%Z → enabledAt s j = false.
Proof.
  revert i. induction n as [|n IH]; intros i H; [discriminate|].
  simpl in H. destruct (enabledAt s i) eqn:Hi.
  - injection H as <-. repeat split; [lia | lia | done | intros; lia].
  - destruct (IH _ H) as (Hr & He & Hbetween). repeat split; [lia | lia | done |].
    intros j Hj. destruct (decide (j = i)) as [->|Hne]; [done|].
    apply Hbetween. lia.
Qed.

Lemma scanDown_None s n i :
  scanDown s n i = None →
  ∀ j, (i - Z.of_nat n < j ≤ i)%Z → enabledAt s j = false.
Proof.
  revert i. induction n as [|n IH]; intros i H j Hj; [lia|].
  simpl in H. destruct (enabledAt s i) eqn:Hi; [discriminate|].
  destruct (decide (j = i)) as [->|Hne]; [done|].
  apply (IH (i - 1)%Z H). lia.
Qed.

Lemma scanDown_Some s n i r :
  scanDown s n i = Some r →
  (i - Z.of_nat n < r ≤ i)%Z ∧ enabledAt s r = true ∧
  ∀ j, (r < j ≤ i)%Z → enabledAt s j = false.
Proof.
  revert i. induction n as [|n IH]; intros i H; [discriminate|].
  simpl in H. destruct (enabledAt s i) eqn:Hi.
  - injection H as <-. repeat split; [lia | lia | done | intros; lia].
  - destruct (IH _ H) as (Hr & He & Hbetween). repeat split; [lia | lia | done |].
    intros j Hj. destruct (decide (j = i)) as [->|Hne]; [done|].
    apply Hbetween. lia.
Qed.

Lemma enabledAt_range s i :
  enabledAt s i = true → (0 ≤ i < Z.of_nat (length (formElements s)))%Z.
Proof.
  unfold enabledAt, at_value. case_decide; [|done].
  destruct (formElements s !! Z.to_nat i) eqn:Hl; [|done].
  intros _. apply lookup_lt_Some in Hl. lia.
Qed.

(** The next enabled option after [c], or [c] itself when there is none:
    no wraparound, disabled options skipped. *)
Definition nextEnabled (s : State) (c r : Z) : Prop :=
  ((c < r < Z.of_nat (length (formElements s)))%Z ∧ enabledAt s r = true ∧
   ∀ j, (c < j < r)%Z → enabledAt s j = false)
  ∨ (r = c ∧ ∀ j, (c < j)%Z → enabledAt s j = false).

(** The previous enabled option before [c], or [c] itself when there is none. *)
Definition previousEnabled (s : State) (c r : Z) : Prop :=
  ((0 ≤ r < c)%Z ∧ enabledAt s r = true ∧
   ∀ j, (r < j < c)%Z → enabledAt s j = false)
  ∨ (r = c ∧ ∀ j, (j < c)%Z → enabledAt s j = false).

Lemma getNextEnabledOption_spec s c :
  ∃ r, __getNextEnabledOption s (Num c) 1 = Num r ∧ nextEnabled s c r.
Proof.
  unfold __getNextEnabledOption, plus.
  destruct (scanUp s _ (c + 1)%Z) as [r|] eqn:Hscan.
  - exists r. split; [done|]. left.
    destruct (scanUp_Some _ _ _ _ Hscan) as (Hr & He & Hb).
    pose proof (enabledAt_range _ _ He). repeat split; [lia | lia | done |].
    intros j Hj. apply Hb. lia.
  - exists c. split; [done|]. right. split; [done|].
    intros j Hj. destruct (enabledAt s j) eqn:He; [|done].
    pose proof (enabledAt_range _ _ He).
    rewrite <- He. apply (scanUp_None _ _ _ Hscan). lia.
Qed.

Lemma getPreviousEnabledOption_spec s c :
  ∃ r, __getPreviousEnabledOption s (Num c) (-1) = Num r ∧ previousEnabled s c r.
Proof.
  unfold __getPreviousEnabledOption, plus.
  destruct (scanDown s _ (c + -1)%Z) as [r|] eqn:Hscan.
  - exists r. split; [done|]. left.
    destruct (scanDown_Some _ _ _ _ Hscan) as (Hr & He & Hb).
    pose proof (enabledAt_range _ _ He). repeat split; [lia | lia | done |].
    intros j Hj. apply Hb. lia.
  - exists c. split; [done|]. right. split; [done|].
    intros j Hj. destruct (enabledAt s j) eqn:He; [|done].
    pose proof (enabledAt_range _ _ He).
    rewrite <- He. apply (scanDown_None _ _ _ Hscan). lia.
Qed.

(** ** The setters *)

Lemma sync_checkedIndex s : checkedIndex (__syncInvokerElement s) = checkedIndex s.
Proof. unfold __syncInvokerElement. by destruct (_invokerNode s). Qed.

Lemma sync_opened s : opened (__syncInvokerElement s) = opened s.
Proof. unfold __syncInvokerElement. by destruct (_invokerNode s). Qed.

Lemma setChecked_opened v s : opened (setChecked v s) = opened s.
Proof.
  unfold setChecked. destruct (validIndex s v); [|done].
  unfold _requestUpdate. simpl. by rewrite sync_opened.
Qed.

Lemma setChecked_checkedIndex_valid v s :
  validIndex s v = true → checkedIndex (setChecked v s) = v.
Proof.
  intros H. unfold setChecked. rewrite H.
  unfold _requestUpdate. simpl. by rewrite sync_checkedIndex.
Qed.

Lemma setChecked_same s : checkedIndex (setChecked (checkedIndex s) s) = checkedIndex s.
Proof.
  destruct (validIndex s (checkedIndex s)) eqn:H.
  - by apply setChecked_checkedIndex_valid.
  - unfold setChecked. by rewrite H.
Qed.

Lemma setActive_checkedIndex v s : checkedIndex (setActive v s) = checkedIndex s.
Proof. unfold setActive. by destruct (validIndex s v). Qed.

Lemma setActive_opened v s : opened (setActive v s) = opened s.
Proof. unfold setActive. by destruct (validIndex s v). Qed.

Lemma overlayOnShow_fields s :
  opened (__overlayOnShow s) = opened s ∧
  checkedIndex (__overlayOnShow s) = checkedIndex s ∧
  focused (__overlayOnShow s) = Some ListboxNode.
Proof.
  unfold __overlayOnShow. destruct (notNull (checkedIndex s)); simpl;
    by rewrite ?setActive_opened, ?setActive_checkedIndex.
Qed.

Lemma setOpened_true_closed s :
  opened s = false → setOpened true s = __overlayOnShow (set_opened true s).
Proof. intros H. unfold setOpened. by rewrite H. Qed.

Lemma setOpened_false_open s :
  opened s = true → setOpened false s = __overlayOnHide (set_opened false s).
Proof. intros H. unfold setOpened. by rewrite H. Qed.

Lemma cloneNode_id n : cloneNode n = n.
Proof.
  revert n. fix IH 1. intros [d|t cs]; [done|]. simpl. f_equal.
  induction cs as [|c cs IHcs]; [done|]. simpl. by rewrite IH, IHcs.
Qed.

Lemma map_cloneNode ns : map cloneNode ns = ns.
Proof. induction ns as [|n ns IH]; [done|]. simpl. by rewrite cloneNode_id, IH. Qed.

(** ** Keyboard policy with the overlay closed *)

(** C2. With the overlay closed and the host not disabled, a keyup of
    ArrowDown (resp. ArrowUp) in 'mac' mode opens the overlay and leaves
    [checkedIndex] as it is; in any other mode the overlay stays closed and
    [checkedIndex] moves to the next (resp. previous) enabled option, staying
    where it is when there is none: no wraparound, disabled options are
    skipped. *)
Theorem keyup_arrow_overlay_closed (s : State) (c : Z) :
  disabled s = false → opened s = false → checkedIndex s = Num c →
  (interactionMode s = "mac" →
     ∀ key, key = "ArrowDown" ∨ key = "ArrowUp" →
       opened (snd (__onKeyUp key s)) = true ∧
       checkedIndex (snd (__onKeyUp key s)) = checkedIndex s) ∧
  (interactionMode s ≠ "mac" →
     (opened (snd (__onKeyUp "ArrowDown" s)) = false ∧
      ∃ r, checkedIndex (snd (__onKeyUp "ArrowDown" s)) = Num r ∧ nextEnabled s c r) ∧
     (opened (snd (__onKeyUp "ArrowUp" s)) = false ∧
      ∃ r, checkedIndex (snd (__onKeyUp "ArrowUp" s)) = Num r ∧ previousEnabled s c r)).
Proof.
  intros Hd Ho Hc. split.
  - intros Hmac key Hkey.
    assert (snd (__onKeyUp key s) = setOpened true s) as ->.
    { unfold __onKeyUp. rewrite Hd, Ho.
      destruct Hkey as [-> | ->]; simpl; by rewrite bool_decide_eq_true_2. }
    rewrite setOpened_true_closed by done.
    destruct (overlayOnShow_fields (set_opened true s)) as (H1 & H2 & _).
    by rewrite H1, H2.
  - intros Hmode. unfold __onKeyUp. rewrite Hd, Ho. simpl.
    rewrite (bool_decide_eq_false_2 _ Hmode), Hc. split.
    + rewrite setChecked_opened. split; [done|].
      destruct (getNextEnabledOption_spec s c) as (r & -> & Hr).
      exists r. split; [|done].
      destruct Hr as [(_ & He & _) | [-> _]].
      * by apply setChecked_checkedIndex_valid.
      * rewrite <- Hc. apply setChecked_same.
    + rewrite setChecked_opened. split; [done|].
      destruct (getPreviousEnabledOption_spec s c) as (r & -> & Hr).
      exists r. split; [|done].
      destruct Hr as [(_ & He & _) | [-> _]].
      * by apply setChecked_checkedIndex_valid.
      * rewrite <- Hc. apply setChecked_same.
Qed.

Definition fruit (d : bool) (t : string) : OptionElement := mkOption d [TextNode t].

(** Four options, the second disabled, the first checked, overlay closed. *)
Definition four_options (mode : string) : State :=
  mkState false false false mode (Num 0) undefined
          [fruit false "apple"; fruit true "banana"; fruit false "cherry";
           fruit false "date"]
          (Some (mkInvoker None false false)) None.

Lemma keyup_arrow_overlay_closed_witness :
  (opened (snd (__onKeyUp "ArrowDown" (four_options "mac"))) = true ∧
   checkedIndex (snd (__onKeyUp "ArrowDown" (four_options "mac"))) = Num 0) ∧
  (opened (snd (__onKeyUp "ArrowDown" (four_options "windows/linux"))) = false ∧
   ∃ r, checkedIndex (snd (__onKeyUp "ArrowDown" (four_options "windows/linux"))) = Num r
        ∧ nextEnabled (four_options "windows/linux") 0 r).
Proof.
  split.
  - apply (proj1 (keyup_arrow_overlay_closed (four_options "mac") 0
                    eq_refl eq_refl eq_refl) eq_refl "ArrowDown").
    left; reflexivity.
  - apply (proj2 (keyup_arrow_overlay_closed (four_options "windows/linux") 0
                    eq_refl eq_refl eq_refl)).
    discriminate.
Defined.

(** The end-to-end scenario of the specification: ArrowDown from option 0
    lands on option 2. *)
Example four_options_arrow_down :
  checkedIndex (snd (__onKeyUp "ArrowDown" (four_options "windows/linux"))) = Num 2.
Proof. reflexivity. Qed.

(** ** Overlay transitions *)

(** C7, as the code has it.  When the overlay goes from closed to open,
    [activeIndex] becomes [checkedIndex] if that is the index of an enabled
    option, and is left as it was when [checkedIndex] is unset; focus moves to
    the listbox.  When it goes from open to closed, focus returns to the
    invoker and the indices are untouched. *)
Theorem overlay_transitions (s : State) :
  (opened s = false →
     opened (setOpened true s) = true ∧
     focused (setOpened true s) = Some ListboxNode ∧
     checkedIndex (setOpened true s) = checkedIndex s ∧
     (∀ c, checkedIndex s = Num c → enabledAt s c = true →
           activeIndex (setOpened true s) = Num c) ∧
     (notNull (checkedIndex s) = false →
           activeIndex (setOpened true s) = activeIndex s)) ∧
  (opened s = true →
     opened (setOpened false s) = false ∧
     focused (setOpened false s) = Some InvokerNode ∧
     checkedIndex (setOpened false s) = checkedIndex s ∧
     activeIndex (setOpened false s) = activeIndex s).
Proof.
  split; intros Ho.
  - rewrite setOpened_true_closed by done.
    destruct (overlayOnShow_fields (set_opened true s)) as (H1 & H2 & H3).
    repeat split; try done.
    + intros c Hc He. unfold __overlayOnShow. simpl. rewrite Hc. simpl.
      unfold setActive. simpl.
      replace (enabledAt (set_opened true s) c) with (enabledAt s c) by done.
      by rewrite He.
    + intros Hn. unfold __overlayOnShow. simpl. by rewrite Hn.
  - by rewrite setOpened_false_open.
Qed.

Lemma overlay_transitions_witness :
  activeIndex (setOpened true (four_options "mac")) = Num 0 ∧
  focused (setOpened false (set_opened true (four_options "mac"))) = Some InvokerNode.
Proof.
  split.
  - apply (proj1 (overlay_transitions (four_options "mac")) eq_refl).
    + reflexivity.
    + reflexivity.
  - apply (proj2 (overlay_transitions (set_opened true (four_options "mac"))) eq_refl).
Defined.

(** A closed select whose options are registered but none is checked yet. *)
Definition nothing_checked : State :=
  mkState false false false "mac" undefined undefined
          [fruit false "apple"; fruit false "banana"]
          (Some (mkInvoker None false false)) None.

(** C7 as stated fails: with [checkedIndex] unset, opening the overlay does not
    set [activeIndex] to 0; the guard [checkedIndex != null] skips the
    assignment. *)
Lemma overlay_show_unset_counterexample :
  opened nothing_checked = false ∧
  checkedIndex nothing_checked = undefined ∧
  opened (setOpened true nothing_checked) = true ∧
  activeIndex (setOpened true nothing_checked) ≠ Num 0.
Proof. repeat split; done. Qed.

(** ** Invoker mirror *)

(** What the invoker's display region shows for a template. *)
Definition rendered (t : Template) : list Node :=
  match t with
  | Nodes ns => ns
  | Text s => if decide (s = "") then [] else [TextNode s]
  end.

(** What [_contentTemplate] shows for an option: copies of all its descendant
    elements in document order, or its text when it has none. *)
Definition mirrored (el : OptionElement) : Template :=
  match querySelectorAll_star el with
  | [] => Text (textContent el)
  | ns => Nodes ns
  end.

Lemma contentTemplate_Some el d r :
  _contentTemplate (mkInvoker (Some el) d r) = mirrored el.
Proof.
  unfold _contentTemplate, mirrored. simpl.
  destruct (querySelectorAll_star el) as [|n ns] eqn:H.
  - by case_decide; [simpl in *; lia|].
  - case_decide; [|simpl in *; lia]. by rewrite map_cloneNode.
Qed.

(** An option with text next to an element: Hello <b>World</b>. *)
Definition hello_world : OptionElement :=
  mkOption false [TextNode "Hello "; ElementNode "b" [TextNode "World"]].

(** A select whose one option, Hello <b>World</b>, is the checked one. *)
Definition greeting : State :=
  mkState false false false "mac" (Num 0) undefined [hello_world]
          (Some (mkInvoker None false false)) None.

(** An option with an element inside an element: <div><span>x</span></div>. *)
Definition boxed : OptionElement :=
  mkOption false [ElementNode "div" [ElementNode "span" [TextNode "x"]]].

(** C8, at its failing input.  The option Hello <b>World</b> is checked, and
    the change of the model value reaches the invoker: [selectedElement] is
    that option.  The display region then shows <b>World</b> only, which is
    not a copy of the option's content: the text beside the element is
    dropped, although an option with the same text and no element shows all
    of it.  For <div><span>x</span></div> the inner element is shown twice,
    inside the copy of the outer one and again after it. *)
Lemma invoker_mirror_mixed_content :
  (∃ inv', _invokerNode (_requestUpdate "modelValue" greeting) = Some inv' ∧
           selectedElement inv' = Some hello_world ∧
           _contentTemplate inv' = Nodes [ElementNode "b" [TextNode "World"]] ∧
           rendered (_contentTemplate inv')
             ≠ map cloneNode (optionChildNodes hello_world)) ∧
  textContent hello_world = "Hello World" ∧
  _contentTemplate (mkInvoker (Some (mkOption false [TextNode "Hello World"])) false false)
    = Text "Hello World" ∧
  _contentTemplate (mkInvoker (Some boxed) false false)
    = Nodes [ElementNode "div" [ElementNode "span" [TextNode "x"]];
             ElementNode "span" [TextNode "x"]].
Proof.
  split; [|by repeat split].
  eexists. split; [reflexivity|]. split; [reflexivity|]. split; [reflexivity|].
  discriminate.
Qed.

(** ** Disabled and read-only hosts *)

(** C10. A disabled select ignores every keyup: the whole state, and so
    [opened], [checkedIndex] and [activeIndex], is unchanged and the event is
    not touched.  A click on the invoker of a disabled or read-only select
    does not toggle the overlay: the state is unchanged. *)
Theorem disabled_readonly_frame (s : State) :
  (disabled s = true → ∀ key, __onKeyUp key s = (false, s)) ∧
  (disabled s = true ∨ readOnly s = true →
     __invokerOnClick s = s ∧ opened (__invokerOnClick s) = opened s).
Proof.
  split.
  - intros Hd key. unfold __onKeyUp. by rewrite Hd.
  - intros H. assert (__invokerOnClick s = s) as ->; [|done].
    unfold __invokerOnClick. destruct H as [-> | ->]; [done|].
    by rewrite andb_false_r.
Qed.

Definition disabled_select : State :=
  mkState true false false "windows/linux" (Num 0) undefined
          [fruit false "apple"; fruit false "banana"]
          (Some (mkInvoker None true false)) None.

Definition readonly_select : State :=
  mkState false true false "mac" (Num 0) undefined
          [fruit false "apple"; fruit false "banana"]
          (Some (mkInvoker None false true)) None.

Lemma disabled_readonly_frame_witness :
  __onKeyUp "ArrowDown" disabled_select = (false, disabled_select) ∧
  opened (__invokerOnClick disabled_select) = opened disabled_select ∧
  opened (__invokerOnClick readonly_select) = opened readonly_select.
Proof.
  split; [|split].
  - apply (proj1 (disabled_readonly_frame disabled_select)). reflexivity.
  - apply (proj2 (disabled_readonly_frame disabled_select)). left. reflexivity.
  - apply (proj2 (disabled_readonly_frame readonly_select)). right. reflexivity.
Defined.

(** Without the flags the same inputs do change the state. *)
Example enabled_select_reacts :
  checkedIndex (snd (__onKeyUp "ArrowDown" (four_options "windows/linux"))) ≠
    checkedIndex (four_options "windows/linux") ∧
  opened (__invokerOnClick (four_options "mac")) = true.
Proof. split; [discriminate | reflexivity]. Qed.

(** ** What the keyup handler handles *)

(** [__onKeyUp] handles a key only when the select is enabled, the overlay is
    closed and the key is ArrowUp or ArrowDown: exactly then it calls
    [preventDefault]; in every other case the event and the whole state are
    left as they are. *)
Theorem keyup_handled_iff (s : State) (key : string) :
  (fst (__onKeyUp key s) = true ↔
   disabled s = false ∧ opened s = false ∧ (key = "ArrowUp" ∨ key = "ArrowDown")) ∧
  (fst (__onKeyUp key s) = false → snd (__onKeyUp key s) = s).
Proof.
  unfold __onKeyUp.
  destruct (disabled s); [by split; [split; [|intros (? & _)]|]|].
  destruct (opened s); [by split; [split; [|intros (_ & ? & _)]|]|].
  destruct (decide (key = "ArrowUp")) as [->|HU].
  { simpl. split; [|done]. split; [|done]. intros _. by repeat split; left. }
  rewrite (bool_decide_eq_false_2 _ HU).
  destruct (decide (key = "ArrowDown")) as [->|HD].
  { simpl. split; [|done]. split; [|done]. intros _. by repeat split; right. }
  rewrite (bool_decide_eq_false_2 _ HD). simpl.
  split; [|done]. split; [done|]. by intros (_ & _ & [?|?]).
Qed.

Lemma keyup_handled_iff_witness :
  snd (__onKeyUp "ArrowDown" (set_opened true (four_options "windows/linux")))
    = set_opened true (four_options "windows/linux") ∧
  snd (__onKeyUp "Home" (four_options "windows/linux")) = four_options "windows/linux".
Proof.
  split.
  - apply (proj2 (keyup_handled_iff (set_opened true (four_options "windows/linux"))
                    "ArrowDown")). reflexivity.
  - apply (proj2 (keyup_handled_iff (four_options "windows/linux") "Home")). reflexivity.
Defined.

(** ** Down and up again *)

Lemma enabledAt_formElements s s' i :
  formElements s' = formElements s → enabledAt s' i = enabledAt s i.
Proof. intros H. unfold enabledAt. by rewrite H. Qed.

Lemma setChecked_frame v s :
  formElements (setChecked v s) = formElements s ∧
  disabled (setChecked v s) = disabled s ∧
  opened (setChecked v s) = opened s ∧
  interactionMode (setChecked v s) = interactionMode s ∧
  activeIndex (setChecked v s) = activeIndex s.
Proof.
  unfold setChecked. destruct (validIndex s v); [|done].
  unfold _requestUpdate, __syncInvokerElement. simpl.
  by destruct (_invokerNode s).
Qed.

Lemma keyup_other_mode s c :
  disabled s = false → opened s = false → interactionMode s ≠ "mac" →
  checkedIndex s = Num c →
  (∃ r, checkedIndex (snd (__onKeyUp "ArrowDown" s)) = Num r ∧ nextEnabled s c r) ∧
  (∃ r, checkedIndex (snd (__onKeyUp "ArrowUp" s)) = Num r ∧ previousEnabled s c r).
Proof.
  intros Hd Ho Hmode Hc. unfold __onKeyUp. rewrite Hd, Ho. simpl.
  rewrite (bool_decide_eq_false_2 _ Hmode), Hc. split.
  - destruct (getNextEnabledOption_spec s c) as (r & -> & Hr).
    exists r. split; [|done].
    destruct Hr as [(_ & He & _) | [-> _]].
    + by apply setChecked_checkedIndex_valid.
    + rewrite <- Hc. apply setChecked_same.
  - destruct (getPreviousEnabledOption_spec s c) as (r & -> & Hr).
    exists r. split; [|done].
    destruct Hr as [(_ & He & _) | [-> _]].
    + by apply setChecked_checkedIndex_valid.
    + rewrite <- Hc. apply setChecked_same.
Qed.

(** In a mode other than 'mac', with the overlay closed and the select
    enabled: if ArrowDown moves the checked index away from an enabled option
    [c], then ArrowUp moves it back to [c]. *)
Theorem arrow_down_then_up (s : State) (c : Z) :
  disabled s = false → opened s = false → interactionMode s ≠ "mac" →
  checkedIndex s = Num c → enabledAt s c = true →
  checkedIndex (snd (__onKeyUp "ArrowDown" s)) ≠ Num c →
  checkedIndex (snd (__onKeyUp "ArrowUp" (snd (__onKeyUp "ArrowDown" s)))) = Num c.
Proof.
  intros Hd Ho Hm Hc He Hmoved.
  destruct (keyup_other_mode s c Hd Ho Hm Hc) as [(r & Hr & Hnext) _].
  set (s1 := snd (__onKeyUp "ArrowDown" s)) in *.
  assert (s1 = setChecked (__getNextEnabledOption s (checkedIndex s) 1) s) as Hs1.
  { subst s1. unfold __onKeyUp. rewrite Hd, Ho. simpl.
    by rewrite (bool_decide_eq_false_2 _ Hm). }
  destruct (setChecked_frame (__getNextEnabledOption s (checkedIndex s) 1) s)
    as (Hf & Hd1 & Ho1 & Hm1 & _).
  rewrite <- Hs1 in Hf, Hd1, Ho1, Hm1.
  destruct Hnext as [(Hcr & Her & Hbetween) | [-> _]]; [|congruence].
  destruct (keyup_other_mode s1 r) as [_ (r' & Hr' & Hprev)];
    [congruence | congruence | congruence | done |].
  rewrite Hr'. f_equal.
  destruct Hprev as [(Hr'r & Her' & Hbetween') | [-> Hnone]].
  - rewrite (enabledAt_formElements s s1) in Her' by done.
    destruct (Z.lt_trichotomy r' c) as [Hlt|[Heq|Hgt]]; [|done|].
    + specialize (Hbetween' c ltac:(lia)).
      rewrite (enabledAt_formElements s s1) in Hbetween' by done. congruence.
    + specialize (Hbetween r' ltac:(lia)). congruence.
  - specialize (Hnone c ltac:(lia)).
    rewrite (enabledAt_formElements s s1) in Hnone by done. congruence.
Qed.

Lemma arrow_down_then_up_witness :
  checkedIndex (snd (__onKeyUp "ArrowUp"
                       (snd (__onKeyUp "ArrowDown" (four_options "windows/linux")))))
    = Num 0.
Proof.
  apply (arrow_down_then_up (four_options "windows/linux") 0);
    try reflexivity; discriminate.
Defined.

(** ** Clicks on the invoker *)

(** A click on the invoker never commits a value: the checked index, the
    options and the flags stay as they are whatever the state.  On a select
    that is neither disabled nor read-only it flips [opened], moving the
    focus into the listbox when it opens and back to the invoker when it
    closes. *)
Theorem invoker_click_toggles (s : State) :
  (checkedIndex (__invokerOnClick s) = checkedIndex s ∧
   formElements (__invokerOnClick s) = formElements s ∧
   disabled (__invokerOnClick s) = disabled s ∧
   readOnly (__invokerOnClick s) = readOnly s ∧
   _invokerNode (__invokerOnClick s) = _invokerNode s) ∧
  (disabled s = false → readOnly s = false →
   opened (__invokerOnClick s) = negb (opened s) ∧
   focused (__invokerOnClick s) =
     Some (if opened s then InvokerNode else ListboxNode)).
Proof.
  assert (∀ x, let y := toggle x in
               checkedIndex y = checkedIndex x ∧ formElements y = formElements x ∧
               disabled y = disabled x ∧ readOnly y = readOnly x ∧
               _invokerNode y = _invokerNode x ∧
               opened y = negb (opened x) ∧
               focused y = Some (if opened x then InvokerNode else ListboxNode)) as Htoggle.
  { intros x. unfold toggle. destruct (opened x) eqn:Hx; simpl.
    - by rewrite setOpened_false_open.
    - rewrite setOpened_true_closed by done. unfold __overlayOnShow. simpl.
      destruct (notNull (checkedIndex x)); [|done].
      unfold setActive. by destruct (validIndex _ _). }
  unfold __invokerOnClick. split.
  - destruct (negb (disabled s) && negb (readOnly s)); [|done].
    destruct (Htoggle s) as (H1 & H2 & H3 & H4 & H5 & _). done.
  - intros -> ->. simpl. by destruct (Htoggle s) as (_ & _ & _ & _ & _ & H6 & H7).
Qed.

Lemma invoker_click_toggles_witness :
  opened (__invokerOnClick (four_options "mac")) = negb (opened (four_options "mac")) ∧
  focused (__invokerOnClick (four_options "mac")) = Some ListboxNode.
Proof.
  exact (proj2 (invoker_click_toggles (four_options "mac")) eq_refl eq_refl).
Defined.

(** ** The invoker's content for simple options *)

Definition isText (n : Node) : bool :=
  match n with TextNode _ => true | ElementNode _ _ => false end.

(** An element whose children are all text. *)
Definition isLeafElement (n : Node) : bool :=
  match n with TextNode _ => false | ElementNode _ cs => forallb isText cs end.

Lemma elementsIn_text cs : forallb isText cs = true → flat_map elementsIn cs = [].
Proof.
  induction cs as [|[d|t cs'] cs IH]; simpl; [done | | done]. apply IH.
Qed.

Lemma elementsIn_leaves ns :
  forallb isLeafElement ns = true → flat_map elementsIn ns = ns.
Proof.
  induction ns as [|[d|t cs] ns IH]; simpl; [done | done |].
  intros [Hcs Hns]%andb_true_iff. by rewrite elementsIn_text, IH.
Qed.

(** For an option made of elements that contain only text, the invoker shows
    exactly a copy of the option's children; for an option made of text only,
    it shows the option's text.  (Only for other options - text beside
    elements, nested elements - does the shown content differ from the
    option's.) *)
Theorem contentTemplate_simple_options (el : OptionElement) (d r : bool) :
  (optionChildNodes el ≠ [] →
   forallb isLeafElement (optionChildNodes el) = true →
   _contentTemplate (mkInvoker (Some el) d r) = Nodes (map cloneNode (optionChildNodes el)) ∧
   rendered (_contentTemplate (mkInvoker (Some el) d r)) = optionChildNodes el) ∧
  (forallb isText (optionChildNodes el) = true →
   _contentTemplate (mkInvoker (Some el) d r) = Text (textContent el)).
Proof.
  split.
  - intros Hne Hleaves. rewrite contentTemplate_Some. unfold mirrored, querySelectorAll_star.
    rewrite elementsIn_leaves by done. rewrite map_cloneNode.
    by destruct (optionChildNodes el).
  - intros Htext. rewrite contentTemplate_Some. unfold mirrored, querySelectorAll_star.
    by rewrite elementsIn_text.
Qed.

Definition two_spans : OptionElement :=
  mkOption false [ElementNode "b" [TextNode "Red"]; ElementNode "i" [TextNode "apple"]].

Lemma contentTemplate_simple_options_witness :
  rendered (_contentTemplate (mkInvoker (Some two_spans) false false))
    = optionChildNodes two_spans ∧
  _contentTemplate (mkInvoker (Some (fruit false "apple")) false false) = Text "apple".
Proof.
  split.
  - apply (proj1 (contentTemplate_simple_options two_spans false false));
      [discriminate | reflexivity].
  - exact (proj2 (contentTemplate_simple_options (fruit false "apple") false false)
             eq_refl).
Defined.

(** ** The invoker is written to, never read back *)

(** [_requestUpdate] (with [__toggleInvokerDisabled] and
    [__syncInvokerElement]) changes nothing but the invoker: the host's
    flags, indices, options and focus stay as they are for every property
    name.  For 'disabled' and 'readOnly' the invoker's flags become the
    host's and its selected element is kept; for 'modelValue' its selected
    element becomes the checked option and its flags are kept; for any other
    name, and whenever there is no invoker, nothing changes at all. *)
Theorem requestUpdate_writes_invoker_only (s : State) (name : string) :
  (disabled (_requestUpdate name s) = disabled s ∧
   readOnly (_requestUpdate name s) = readOnly s ∧
   opened (_requestUpdate name s) = opened s ∧
   checkedIndex (_requestUpdate name s) = checkedIndex s ∧
   activeIndex (_requestUpdate name s) = activeIndex s ∧
   formElements (_requestUpdate name s) = formElements s ∧
   focused (_requestUpdate name s) = focused s) ∧
  (_invokerNode s = None → _requestUpdate name s = s) ∧
  (name ≠ "disabled" → name ≠ "readOnly" → name ≠ "modelValue" →
   _requestUpdate name s = s) ∧
  (∀ inv, _invokerNode s = Some inv →
     (name = "disabled" ∨ name = "readOnly" →
      _invokerNode (_requestUpdate name s)
        = Some (mkInvoker (selectedElement inv) (disabled s) (readOnly s))) ∧
     (name = "modelValue" →
      _invokerNode (_requestUpdate name s)
        = Some (mkInvoker (at_value (formElements s) (checkedIndex s))
                          (invokerDisabled inv) (invokerReadOnly inv)))).
Proof.
  unfold _requestUpdate, __toggleInvokerDisabled, __syncInvokerElement.
  split; [|split; [|split]].
  - destruct (_invokerNode s) as [inv|] eqn:Hinv;
      destruct (_ || _); destruct (bool_decide (name = "modelValue"));
      simpl; rewrite ?Hinv; done.
  - intros Hinv. rewrite Hinv.
    destruct (_ || _); destruct (bool_decide (name = "modelValue"));
      simpl; rewrite ?Hinv; done.
  - intros H1 H2 H3. by rewrite !bool_decide_eq_false_2.
  - intros inv Hinv. split.
    + intros [-> | ->]; simpl; by rewrite Hinv.
    + intros ->. simpl. by rewrite Hinv.
Qed.

Lemma requestUpdate_writes_invoker_only_witness :
  _invokerNode (_requestUpdate "disabled" disabled_select)
    = Some (mkInvoker None true false) ∧
  _requestUpdate "name" disabled_select = disabled_select.
Proof.
  destruct (requestUpdate_writes_invoker_only disabled_select "disabled")
    as (_ & _ & _ & Hinv).
  destruct (requestUpdate_writes_invoker_only disabled_select "name")
    as (_ & _ & Hother & _).
  split.
  - exact (proj1 (Hinv (mkInvoker None true false) eq_refl) (or_introl eq_refl)).
  - apply Hother; discriminate.
Defined.

End SelectRichProofs.

(** * Properties of the tab group *)

Module TabsProofs.
Import Tabs.

(** ** What the synchronizer and the setter leave alone *)

Lemma updateSelected_frame s :
  store (__updateSelected s) = store s ∧
  children (__updateSelected s) = children s ∧
  selectedIndex (__updateSelected s) = selectedIndex s ∧
  dispatched (__updateSelected s) = dispatched s ∧
  warnings (__updateSelected s) = warnings s.
Proof.
  unfold __updateSelected.
  destruct (store s ≫= _) as [entry|]; [|done].
  destruct (List.find _ _), (List.find _ _), (firstUpdate s), (panel entry); done.
Qed.

Lemma updateSelected_out_of_range s :
  store s ≫= (λ st, at_index st (selectedIndex s)) = None →
  __updateSelected s = s.
Proof. intros H. unfold __updateSelected. by rewrite H. Qed.

Lemma set_selectedIndex_frame v s :
  store (set_selectedIndex v s) = store s ∧
  children (set_selectedIndex v s) = children s ∧
  selectedIndex (set_selectedIndex v s) = v ∧
  dispatched (set_selectedIndex v s) = (dispatched s ++ ["selected-changed"])%list.
Proof.
  unfold set_selectedIndex, dispatchEvent.
  destruct (updateSelected_frame (set___selectedIndex v (set_firstUpdate false s)))
    as (H1 & H2 & H3 & H4 & _).
  simpl. by rewrite H1, H2, H3, H4.
Qed.

(** ** Observations on the elements *)

Definition attrOf (s : State) (b : nat) (a : string) : option string :=
  heap s !! b ≫= λ e, attrs e !! a.

Definition slotOf (s : State) (b : nat) : option string :=
  slot <$> heap s !! b.

Definition listenersAt (s : State) (b : nat) : list Listener :=
  from_option listeners [] (heap s !! b).

(** The element functions behind the four (de)select helpers. *)
Definition selectEl (e : Element) : Element :=
  setAttribute "tabindex" "0"
    (setAttribute "aria-selected" "true" (setAttribute "selected" "true" e)).

Definition deselectEl (e : Element) : Element :=
  setAttribute "tabindex" "-1"
    (setAttribute "aria-selected" "false" (removeAttribute "selected" e)).

Lemma heap_onElement f id s b :
  heap (onElement f id s) !! b =
  if decide (id = b) then f <$> heap s !! b else heap s !! b.
Proof.
  unfold onElement. simpl. rewrite lookup_alter. by case_decide; subst.
Qed.

Lemma heap_selectButton id fu s b :
  heap (selectButton id fu s) !! b =
  if decide (id = b) then selectEl <$> heap s !! b else heap s !! b.
Proof.
  unfold selectButton. rewrite !heap_onElement.
  case_decide; [|by destruct fu].
  destruct fu; simpl; by destruct (heap s !! b).
Qed.

Lemma heap_deselectButton id s b :
  heap (deselectButton id s) !! b =
  if decide (id = b) then deselectEl <$> heap s !! b else heap s !! b.
Proof.
  unfold deselectButton. rewrite !heap_onElement.
  case_decide; [|done]. by destruct (heap s !! b).
Qed.

Lemma heap_selectPanel id s b :
  heap (selectPanel id s) !! b =
  if decide (id = b) then setAttribute "selected" "true" <$> heap s !! b
  else heap s !! b.
Proof. apply heap_onElement. Qed.

Lemma heap_deselectPanel id s b :
  heap (deselectPanel id s) !! b =
  if decide (id = b) then removeAttribute "selected" <$> heap s !! b
  else heap s !! b.
Proof. apply heap_onElement. Qed.

(** ** The tree below the host *)

Definition kidsOf (s : State) (b : nat) : option (list nat) :=
  elementChildren <$> heap s !! b.

Lemma subtree_ext (h h' : gmap nat Element) :
  (∀ b, elementChildren <$> h' !! b = elementChildren <$> h !! b) →
  ∀ d id, subtree h' d id = subtree h d id.
Proof.
  intros Hkids. induction d as [|d IH]; intros id; [done|].
  simpl. f_equal. specialize (Hkids id).
  destruct (h' !! id) as [e'|], (h !! id) as [e|]; simpl in Hkids; try done.
  injection Hkids as ->. by apply flat_map_ext.
Qed.

Lemma descendants_ext s s' :
  children s' = children s →
  (∀ b, kidsOf s' b = kidsOf s b) →
  descendants s' = descendants s.
Proof.
  intros Hc Hkids. unfold descendants. rewrite Hc.
  assert (dom (heap s') = dom (heap s)) as Hdom.
  { apply set_eq. intros b. rewrite !elem_of_dom.
    specialize (Hkids b). unfold kidsOf in Hkids.
    by rewrite <- (fmap_is_Some elementChildren (heap s' !! b)), Hkids, fmap_is_Some. }
  assert (size (heap s') = size (heap s)) as ->.
  { by rewrite <- (size_dom (heap s')), <- (size_dom (heap s)), Hdom. }
  apply flat_map_ext. intros id. by apply subtree_ext.
Qed.

(** The children of the host are among its descendants. *)
Lemma children_descendants s b : b ∈ children s → b ∈ descendants s.
Proof.
  intros Hb. unfold descendants. apply list_elem_of_In, in_flat_map.
  exists b. split; [by apply list_elem_of_In|].
  destruct (size (heap s)); by left.
Qed.

(** When no child of the host has child elements, the descendants are the
    children. *)
Lemma descendants_flat s :
  (∀ b e, b ∈ children s → heap s !! b = Some e → elementChildren e = []) →
  descendants s = children s.
Proof.
  unfold descendants. generalize (size (heap s)) as d.
  induction (children s) as [|b bs IH]; intros d Hflat; [done|].
  simpl. rewrite IH by (intros b' e Hb'; apply Hflat; by right).
  destruct d as [|d]; [done|]. simpl.
  destruct (heap s !! b) as [e|] eqn:He; [|done].
  by rewrite (Hflat b e (list_elem_of_here _ _) He).
Qed.

Lemma kidsOf_onElement f id s b :
  (∀ e, elementChildren (f e) = elementChildren e) →
  kidsOf (onElement f id s) b = kidsOf s b.
Proof.
  intros Hf. unfold kidsOf. rewrite heap_onElement. case_decide; [|done].
  destruct (heap s !! b) as [e|]; [|done]. simpl. by rewrite Hf.
Qed.

(** Two states with the same tree of elements, whose elements have the same
    slots. *)
Definition sameSlots (s s' : State) : Prop :=
  descendants s' = descendants s ∧ ∀ b, slotOf s' b = slotOf s b.

Lemma sameSlots_refl s : sameSlots s s.
Proof. by split. Qed.

Lemma sameSlots_trans s1 s2 s3 : sameSlots s1 s2 → sameSlots s2 s3 → sameSlots s1 s3.
Proof.
  intros [H1 H2] [H3 H4]. split; [congruence|]. intros b. by rewrite H4, H2.
Qed.

Lemma hasSlot_slotOf s sl b : hasSlot s sl b = bool_decide (slotOf s b = Some sl).
Proof.
  unfold hasSlot, slotOf. destruct (heap s !! b) as [e|]; simpl.
  - apply bool_decide_ext. split; [by intros -> | by intros [= ->]].
  - done.
Qed.

Lemma sameSlots_querySlot s s' sl : sameSlots s s' → querySlot s' sl = querySlot s sl.
Proof.
  intros [Hc Hs]. unfold querySlot. rewrite Hc.
  apply filter_ext. intros b. by rewrite !hasSlot_slotOf, Hs.
Qed.

Lemma querySlot_slotOf s sl b :
  b ∈ querySlot s sl ↔ b ∈ descendants s ∧ slotOf s b = Some sl.
Proof.
  unfold querySlot. rewrite !list_elem_of_In, filter_In, hasSlot_slotOf.
  by rewrite bool_decide_eq_true.
Qed.

Lemma sameSlots_onElement f id s :
  (∀ e, slot (f e) = slot e) →
  (∀ e, elementChildren (f e) = elementChildren e) →
  sameSlots s (onElement f id s).
Proof.
  intros Hf Hkids. split.
  - apply descendants_ext; [done|]. intros b. by apply kidsOf_onElement.
  - intros b. unfold slotOf.
    rewrite heap_onElement. case_decide; [|done].
    destruct (heap s !! b) as [e|]; [|done]. simpl. by rewrite Hf.
Qed.

Lemma sameSlots_selectButton id fu s : sameSlots s (selectButton id fu s).
Proof.
  split.
  - apply descendants_ext; [by destruct fu|]. intros b. unfold kidsOf.
    rewrite heap_selectButton. case_decide; [|done]. by destruct (heap s !! b).
  - intros b. unfold slotOf.
    rewrite heap_selectButton. case_decide; [|done]. by destruct (heap s !! b).
Qed.

Lemma sameSlots_deselectButton id s : sameSlots s (deselectButton id s).
Proof.
  split.
  - apply descendants_ext; [done|]. intros b. unfold kidsOf.
    rewrite heap_deselectButton. case_decide; [|done]. by destruct (heap s !! b).
  - intros b. unfold slotOf.
    rewrite heap_deselectButton. case_decide; [|done]. by destruct (heap s !! b).
Qed.

Lemma sameSlots_selectPanel id s : sameSlots s (selectPanel id s).
Proof. by apply sameSlots_onElement. Qed.

Lemma sameSlots_deselectPanel id s : sameSlots s (deselectPanel id s).
Proof. by apply sameSlots_onElement. Qed.

(** ** Marks of a trigger *)

Inductive Mark : Type := Selected | Deselected.

(** The selected trigger carries [selected], [aria-selected="true"] and
    [tabindex="0"]; any other has no [selected], [aria-selected="false"] and
    [tabindex="-1"]. *)
Definition markedAt (m : Mark) (s : State) (b : nat) : Prop :=
  match m with
  | Selected =>
      attrOf s b "selected" = Some "true" ∧
      attrOf s b "aria-selected" = Some "true" ∧
      attrOf s b "tabindex" = Some "0"
  | Deselected =>
      attrOf s b "selected" = None ∧
      attrOf s b "aria-selected" = Some "false" ∧
      attrOf s b "tabindex" = Some "-1"
  end.

Lemma markedAt_heap m s s' b :
  heap s' !! b = heap s !! b → markedAt m s b → markedAt m s' b.
Proof. intros H. unfold markedAt, attrOf. by rewrite H. Qed.

Lemma markedAt_selectButton b fu s :
  is_Some (heap s !! b) → markedAt Selected (selectButton b fu s) b.
Proof.
  intros [e He]. unfold markedAt, attrOf. rewrite heap_selectButton.
  case_decide; [|done]. rewrite He. simpl. by simplify_map_eq.
Qed.

Lemma markedAt_deselectButton b s :
  is_Some (heap s !! b) → markedAt Deselected (deselectButton b s) b.
Proof.
  intros [e He]. unfold markedAt, attrOf. rewrite heap_deselectButton.
  case_decide; [|done]. rewrite He. simpl. by simplify_map_eq.
Qed.

Lemma markedAt_exclusive s b : markedAt Selected s b → markedAt Deselected s b → False.
Proof. intros [H _] [H' _]. congruence. Qed.

(** ** The synchronizer on a marked registry *)

(** [cur] is the one trigger of [T] that is marked selected, if any; every
    other trigger of [T] is marked deselected. *)
Definition MarksOn (T : list nat) (s : State) (cur : option nat) : Prop :=
  (∀ c, cur = Some c → c ∈ T) ∧
  ∀ b, b ∈ T → markedAt (if decide (cur = Some b) then Selected else Deselected) s b.

Lemma slotOf_is_Some s b sl : slotOf s b = Some sl → is_Some (heap s !! b).
Proof. unfold slotOf. destruct (heap s !! b); [eauto | done]. Qed.

Lemma elementHas_true s sl a b :
  elementHas s sl a b = true ↔ slotOf s b = Some sl ∧ is_Some (attrOf s b a).
Proof.
  unfold elementHas, slotOf, attrOf, hasAttribute.
  destruct (heap s !! b) as [e|]; simpl.
  - rewrite andb_true_iff, !bool_decide_eq_true. split.
    + by intros [-> ?].
    + by intros [[= ->] ?].
  - split; [done | by intros [? ?]].
Qed.

Lemma find_unique (P : nat → bool) (l : list nat) (cur : option nat) :
  (∀ b, b ∈ l → P b = bool_decide (cur = Some b)) →
  (∀ c, cur = Some c → c ∈ l) →
  List.find P l = cur.
Proof.
  induction l as [|x l IH]; intros HP Hcur.
  - destruct cur as [c|]; [|done]. specialize (Hcur c eq_refl). by apply elem_of_nil in Hcur.
  - simpl. rewrite (HP x) by left.
    case_bool_decide as Hx; [done|].
    apply IH.
    + intros b Hb. apply HP. by right.
    + intros c Hc. pose proof (Hcur c Hc) as Hin.
      apply elem_of_cons in Hin as [->|Hin]; [congruence | done].
Qed.

(** The search of the synchronizer runs over the children of the host: it
    finds the marked trigger when that trigger is a child. *)
Lemma find_selected_tab s cur :
  (∀ c, cur = Some c → c ∈ children s) →
  MarksOn (querySlot s "tab") s cur →
  List.find (elementHas s "tab" "selected") (children s) = cur.
Proof.
  intros Hchild [Hcur Hmarks]. apply find_unique.
  - intros b Hb.
    destruct (decide (slotOf s b = Some "tab")) as [Hslot|Hslot].
    + assert (b ∈ querySlot s "tab") as Hin.
      { apply querySlot_slotOf. split; [by apply children_descendants | done]. }
      specialize (Hmarks b Hin). case_bool_decide as Hc.
      * rewrite decide_True in Hmarks by done. destruct Hmarks as [Hsel _].
        apply elementHas_true. split; [done|]. by rewrite Hsel.
      * rewrite decide_False in Hmarks by done. destruct Hmarks as [Hsel _].
        apply not_true_is_false. intros [_ [v Hv]]%elementHas_true. congruence.
    + rewrite bool_decide_eq_false_2.
      * apply not_true_is_false. by intros [? _]%elementHas_true.
      * intros Hc. apply Hcur, querySlot_slotOf in Hc. by destruct Hc.
  - exact Hchild.
Qed.

(** After deselecting the marked trigger, no trigger is marked. *)
Lemma deselect_previous T s cur :
  (∀ b, b ∈ T → is_Some (heap s !! b)) →
  MarksOn T s cur →
  MarksOn T (match cur with Some b => deselectButton b s | None => s end) None.
Proof.
  intros Hheap [Hcur Hmarks]. split; [done|]. intros b Hb.
  rewrite decide_False by done.
  specialize (Hmarks b Hb). destruct cur as [c|].
  - destruct (decide (c = b)) as [->|Hne].
    + by apply markedAt_deselectButton, Hheap.
    + rewrite decide_False in Hmarks by congruence.
      eapply markedAt_heap; [|done]. rewrite heap_deselectButton. by rewrite decide_False.
  - by rewrite decide_False in Hmarks.
Qed.

(** A helper that works on an element outside [T] keeps the marks of [T]. *)
Lemma MarksOn_heap T s s' cur :
  (∀ b, b ∈ T → heap s' !! b = heap s !! b) →
  MarksOn T s cur → MarksOn T s' cur.
Proof.
  intros Hheap [Hcur Hmarks]. split; [done|]. intros b Hb.
  eapply markedAt_heap; [by apply Hheap | by apply Hmarks].
Qed.

Lemma select_current T s fu bt :
  bt ∈ T → is_Some (heap s !! bt) →
  MarksOn T s None → MarksOn T (selectButton bt fu s) (Some bt).
Proof.
  intros Hbt Hheap [_ Hmarks]. split; [by intros c [= <-]|]. intros b Hb.
  destruct (decide (bt = b)) as [->|Hne].
  - rewrite decide_True by done. by apply markedAt_selectButton.
  - rewrite decide_False by congruence.
    specialize (Hmarks b Hb). rewrite decide_False in Hmarks by done.
    eapply markedAt_heap; [|done]. rewrite heap_selectButton. by rewrite decide_False.
Qed.

Lemma updateSelected_sameSlots s : sameSlots s (__updateSelected s).
Proof.
  unfold __updateSelected. destruct (store s ≫= _) as [entry|]; [|apply sameSlots_refl].
  cbv zeta.
  generalize (List.find (elementHas s "tab" "selected") (children s)) as fb.
  generalize (List.find (elementHas s "panel" "selected") (children s)) as fp.
  intros fp fb.
  set (s1 := match fb with Some b => deselectButton b s | None => s end).
  set (s2 := match fp with Some p => deselectPanel p s1 | None => s1 end).
  assert (sameSlots s s1) as H1.
  { subst s1. destruct fb; [apply sameSlots_deselectButton | apply sameSlots_refl]. }
  assert (sameSlots s1 s2) as H2.
  { subst s2. destruct fp; [apply sameSlots_deselectPanel | apply sameSlots_refl]. }
  pose proof (sameSlots_selectButton (button entry) (firstUpdate s) s2) as H3.
  destruct (panel entry) as [p|].
  - eauto using sameSlots_trans, sameSlots_selectPanel.
  - eauto using sameSlots_trans.
Qed.

(** The heart of the synchronizer: on a registry whose marks are consistent,
    an in-range index ends up as the only marked trigger. *)
Lemma updateSelected_marks s st entry cur :
  store s = Some st →
  map button st = querySlot s "tab" →
  (∀ e p, e ∈ st → panel e = Some p → slotOf s p = Some "panel") →
  at_index st (selectedIndex s) = Some entry →
  (∀ c, cur = Some c → c ∈ children s) →
  MarksOn (querySlot s "tab") s cur →
  MarksOn (querySlot s "tab") (__updateSelected s) (Some (button entry)).
Proof.
  intros Hst Hbuttons Hpanels Hentry Hchild Hmarks.
  assert (entry ∈ st) as Hin.
  { unfold at_index in Hentry. case_decide; [|done].
    by eapply list_elem_of_lookup_2. }
  assert (button entry ∈ querySlot s "tab") as Hbt.
  { rewrite <- Hbuttons. apply list_elem_of_fmap. eauto. }
  assert (∀ b, b ∈ querySlot s "tab" → is_Some (heap s !! b)) as Hheap.
  { intros b [_ Hb]%querySlot_slotOf. by eapply slotOf_is_Some. }
  assert (∀ p b, slotOf s p = Some "panel" → b ∈ querySlot s "tab" → p ≠ b) as Hdisj.
  { intros p b Hp [_ Hb]%querySlot_slotOf ->. congruence. }
  unfold __updateSelected. rewrite Hst. simpl. rewrite Hentry. cbv zeta.
  rewrite (find_selected_tab s cur Hchild Hmarks).
  pose proof (deselect_previous _ s cur Hheap Hmarks) as H1.
  set (s1 := match cur with Some b => deselectButton b s | None => s end) in *.
  assert (∀ b, b ∈ querySlot s "tab" → is_Some (heap s1 !! b)) as Hheap1.
  { intros b Hb. subst s1. destruct cur as [c|]; [|by apply Hheap].
    rewrite heap_deselectButton. case_decide; [|by apply Hheap].
    destruct (Hheap b Hb) as [e ->]. by eexists. }
  set (s2 := match List.find (elementHas s "panel" "selected") _ with
             | Some p => deselectPanel p s1 | None => s1 end).
  assert (∀ b, b ∈ querySlot s "tab" → heap s2 !! b = heap s1 !! b) as Hs2.
  { intros b Hb. subst s2.
    destruct (List.find (elementHas s "panel" "selected") _) as [p|] eqn:Hfind; [|done].
    apply find_some in Hfind as [_ [Hp _]%elementHas_true].
    rewrite heap_deselectPanel, decide_False; [done|]. by apply Hdisj. }
  assert (MarksOn (querySlot s "tab") s2 None) as H2 by (by eapply MarksOn_heap).
  assert (is_Some (heap s2 !! button entry)) as Hbt2.
  { rewrite Hs2 by done. by apply Hheap1. }
  pose proof (select_current _ s2 (firstUpdate s) _ Hbt Hbt2 H2) as H3.
  destruct (panel entry) as [p|] eqn:Hp; [|done].
  eapply MarksOn_heap; [|done].
  intros b Hb. rewrite heap_selectPanel, decide_False; [done|].
  apply Hdisj; [|done]. by eapply Hpanels.
Qed.

(** ** Listeners *)

Definition sameListeners (s s' : State) : Prop :=
  ∀ b, listenersAt s' b = listenersAt s b.

Lemma sameListeners_refl s : sameListeners s s.
Proof. done. Qed.

Lemma sameListeners_trans s1 s2 s3 :
  sameListeners s1 s2 → sameListeners s2 s3 → sameListeners s1 s3.
Proof. intros H1 H2 b. by rewrite H2, H1. Qed.

Lemma sameListeners_onElement f id s :
  (∀ e, listeners (f e) = listeners e) → sameListeners s (onElement f id s).
Proof.
  intros Hf b. unfold listenersAt. rewrite heap_onElement. case_decide; [|done].
  destruct (heap s !! b) as [e|]; [|done]. simpl. by rewrite Hf.
Qed.

Lemma sameListeners_selectButton id fu s : sameListeners s (selectButton id fu s).
Proof.
  intros b. unfold listenersAt. rewrite heap_selectButton. case_decide; [|done].
  by destruct (heap s !! b).
Qed.

Lemma sameListeners_deselectButton id s : sameListeners s (deselectButton id s).
Proof.
  intros b. unfold listenersAt. rewrite heap_deselectButton. case_decide; [|done].
  by destruct (heap s !! b).
Qed.

Lemma updateSelected_sameListeners s : sameListeners s (__updateSelected s).
Proof.
  unfold __updateSelected. destruct (store s ≫= _) as [entry|]; [|apply sameListeners_refl].
  cbv zeta.
  generalize (List.find (elementHas s "tab" "selected") (children s)) as fb.
  generalize (List.find (elementHas s "panel" "selected") (children s)) as fp.
  intros fp fb.
  set (s1 := match fb with Some b => deselectButton b s | None => s end).
  set (s2 := match fp with Some p => deselectPanel p s1 | None => s1 end).
  assert (sameListeners s s1) as H1.
  { subst s1. destruct fb; [apply sameListeners_deselectButton | apply sameListeners_refl]. }
  assert (sameListeners s1 s2) as H2.
  { subst s2. destruct fp; [by apply sameListeners_onElement | apply sameListeners_refl]. }
  pose proof (sameListeners_selectButton (button entry) (firstUpdate s) s2) as H3.
  assert (sameListeners s (selectButton (button entry) (firstUpdate s) s2)) as H4
    by eauto using sameListeners_trans.
  destruct (panel entry) as [p|]; [|done].
  eapply sameListeners_trans; [exact H4|]. by apply sameListeners_onElement.
Qed.

(** What the component registers: every keydown listener is the anonymous
    [e => e.preventDefault()], every keyup listener the bound key handler. *)
Definition typedListener (l : Listener) : Prop :=
  (evType l = "keydown" → fnBody (evFn l) = PreventDefaultFn) ∧
  (evType l = "keyup" → fnBody (evFn l) = KeydownHandler).

Definition ListenersOK (s : State) : Prop :=
  ∀ b l, l ∈ listenersAt s b → typedListener l.

Definition hasKeydown (s : State) (b : nat) : Prop :=
  ∃ l, l ∈ listenersAt s b ∧ evType l = "keydown".

(** ** The invariant of a wired tab group *)

Record Inv (s : State) : Prop := mkInv {
  inv_descendants : NoDup (descendants s);
  inv_registry :
    ∃ st, store s = Some st ∧ map button st = querySlot s "tab" ∧
          ∀ e p, e ∈ st → panel e = Some p → slotOf s p = Some "panel";
  inv_listeners : ListenersOK s;
  inv_keydown : ∀ b, b ∈ querySlot s "tab" → hasKeydown s b
}.

(** Every element with the tab slot below the host is a child of the host. *)
Definition tabsAreChildren (s : State) : Prop :=
  ∀ b, b ∈ querySlot s "tab" → b ∈ children s.

(** At most one trigger is marked selected, and it is the trigger of the
    committed index whenever that index is within the registry. *)
Definition Marked (s : State) : Prop :=
  ∃ cur, MarksOn (querySlot s "tab") s cur ∧
         ∀ st entry, store s = Some st →
                     at_index st (selectedIndex s) = Some entry →
                     cur = Some (button entry).

Lemma tabsAreChildren_flat s :
  (∀ b e, b ∈ children s → heap s !! b = Some e → elementChildren e = []) →
  tabsAreChildren s.
Proof.
  intros Hflat b [Hb _]%querySlot_slotOf. by rewrite descendants_flat in Hb.
Qed.

Lemma set_selectedIndex_heap v s :
  heap (set_selectedIndex v s) =
  heap (__updateSelected (set___selectedIndex v (set_firstUpdate false s))).
Proof. done. Qed.

Lemma set_selectedIndex_sameSlots v s : sameSlots s (set_selectedIndex v s).
Proof.
  destruct (updateSelected_sameSlots (set___selectedIndex v (set_firstUpdate false s)))
    as [Hc Hs].
  split; [exact Hc | exact Hs].
Qed.

Lemma tabsAreChildren_set_selectedIndex v s :
  tabsAreChildren (set_selectedIndex v s) ↔ tabsAreChildren s.
Proof.
  unfold tabsAreChildren.
  rewrite (sameSlots_querySlot _ _ "tab" (set_selectedIndex_sameSlots v s)).
  by destruct (set_selectedIndex_frame v s) as (_ & -> & _).
Qed.

Lemma Inv_set_selectedIndex v s : Inv s → Inv (set_selectedIndex v s).
Proof.
  intros [Hnd (st & Hst & Hbuttons & Hpanels) Hls Hkd].
  set (s2 := set___selectedIndex v (set_firstUpdate false s)).
  pose proof (set_selectedIndex_sameSlots v s) as Hslots.
  assert (sameListeners s (set_selectedIndex v s)) as Hlisteners.
  { exact (updateSelected_sameListeners s2). }
  destruct (set_selectedIndex_frame v s) as (Hstore & Hchildren & Hsel & _).
  pose proof (sameSlots_querySlot _ _ "tab" Hslots) as Htabs.
  split.
  - by destruct Hslots as [-> _].
  - exists st. rewrite Hstore, Htabs. split; [done|]. split; [done|].
    intros e p He Hp. destruct Hslots as [_ ->]. by eapply Hpanels.
  - intros b l. rewrite Hlisteners. apply Hls.
  - intros b. rewrite Htabs. intros Hb. unfold hasKeydown. rewrite Hlisteners.
    by apply Hkd.
Qed.

(** A commit keeps the marks in step with the index, provided the triggers
    are children of the host: the synchronizer looks for the trigger to
    deselect among the children only. *)
Lemma Marked_set_selectedIndex v s :
  Inv s → tabsAreChildren s → Marked s → Marked (set_selectedIndex v s).
Proof.
  intros [Hnd (st & Hst & Hbuttons & Hpanels) Hls Hkd] Hflat (cur & Hmarks & Hcur).
  set (s2 := set___selectedIndex v (set_firstUpdate false s)).
  destruct (set_selectedIndex_frame v s) as (Hstore & Hchildren & Hsel & _).
  pose proof (sameSlots_querySlot _ _ "tab" (set_selectedIndex_sameSlots v s)) as Htabs.
  unfold Marked. rewrite Htabs, Hstore, Hsel.
  destruct (at_index st v) as [entry|] eqn:Hentry.
  - exists (Some (button entry)). split.
    + assert (MarksOn (querySlot s2 "tab") (__updateSelected s2) (Some (button entry)))
        as H; [|exact H].
      apply (updateSelected_marks s2 st entry cur); try done.
      intros c ->. apply Hflat. by apply (proj1 Hmarks).
    + intros st' entry' Hst' Hentry'. congruence.
  - exists cur. split.
    + assert (__updateSelected s2 = s2) as Heq.
      { apply updateSelected_out_of_range. subst s2. simpl. by rewrite Hst. }
      assert (MarksOn (querySlot s "tab") (__updateSelected s2) cur) as H; [|exact H].
      rewrite Heq. exact Hmarks.
    + intros st' entry' Hst' Hentry'. congruence.
Qed.

(** The invariant of the reachable states: the wiring, and the marks when the
    triggers are children of the host. *)
Definition Synced (s : State) : Prop :=
  Inv s ∧ (tabsAreChildren s → Marked s).

Lemma Synced_set_selectedIndex v s : Synced s → Synced (set_selectedIndex v s).
Proof.
  intros [HInv Hmarked]. split; [by apply Inv_set_selectedIndex|].
  intros Hflat%tabsAreChildren_set_selectedIndex.
  apply Marked_set_selectedIndex; auto.
Qed.

(** The key handler either leaves the state alone or calls the setter. *)
Lemma handleButtonKeydown_state e s :
  snd (__handleButtonKeydown e s) = s ∨
  ∃ t, snd (__handleButtonKeydown e s) = set_selectedIndex t s.
Proof.
  unfold __handleButtonKeydown.
  unfold mbind, M_bind, bind, gets, _pairCount, modify, mret, M_ret, ret.
  repeat (match goal with
          | |- context [if key_in ?e ?ks then _ else _] => destruct (key_in e ks)
          | |- context [store s] => destruct (store s)
          | |- _ => case_decide
          end; simpl); eauto.
Qed.

Lemma runListener_state f e s :
  snd (runListener f e s) = s ∨
  ∃ t, snd (runListener f e s) = set_selectedIndex t s.
Proof.
  unfold runListener. destruct (fnBody f); simpl.
  - right. by eexists.
  - apply handleButtonKeydown_state.
  - by left.
Qed.

Lemma runListeners_preserves (P : State → Prop) :
  (∀ v s, P s → P (set_selectedIndex v s)) →
  ∀ ls e s, P s → P (snd (runListeners ls e s)).
Proof.
  intros HP. induction ls as [|l ls IH]; intros e s Hs; [done|].
  simpl. pose proof (runListener_state (evFn l) e s) as Hstep.
  destruct (runListener (evFn l) e s) as [[e'|err] s']; simpl in Hstep;
    apply IH; destruct Hstep as [->|[t ->]]; auto.
Qed.

Lemma Inv_deliver ty k b s : Inv s → Inv (snd (deliver ty k b s)).
Proof.
  intros H. unfold deliver. apply runListeners_preserves; [|done].
  intros v s'. apply Inv_set_selectedIndex.
Qed.

Lemma Synced_deliver ty k b s : Synced s → Synced (snd (deliver ty k b s)).
Proof.
  intros H. unfold deliver. apply runListeners_preserves; [|done].
  intros v s'. apply Synced_set_selectedIndex.
Qed.

(** ** Wiring steps of a rebuild *)

(** What every step of a rebuild respects: slots stay, listeners stay of the
    registered kinds, and only the elements [ids] are touched. *)
Definition Frame (ids : list nat) (s s' : State) : Prop :=
  (∀ b, slotOf s' b = slotOf s b) ∧
  (ListenersOK s → ListenersOK s') ∧
  (∀ b, b ∉ ids → heap s' !! b = heap s !! b) ∧
  (∀ b, kidsOf s' b = kidsOf s b).

Lemma Frame_refl ids s : Frame ids s s.
Proof. split; [done|]. split; [done|]. split; done. Qed.

Lemma Frame_trans ids s1 s2 s3 : Frame ids s1 s2 → Frame ids s2 s3 → Frame ids s1 s3.
Proof.
  intros (H1 & H2 & H3 & H4) (H5 & H6 & H7 & H8). split; [|split; [|split]].
  - intros b. by rewrite H5, H1.
  - auto.
  - intros b Hb. by rewrite H7, H3.
  - intros b. by rewrite H8, H4.
Qed.

Lemma Frame_weaken ids ids' s s' : ids ⊆ ids' → Frame ids s s' → Frame ids' s s'.
Proof.
  intros Hsub (H1 & H2 & H3 & H4). split; [done|]. split; [done|]. split; [|done].
  intros b Hb. apply H3. intros Hin. apply Hb. by apply Hsub.
Qed.

Lemma Frame_heap_eq ids s s' : heap s' = heap s → Frame ids s s'.
Proof.
  intros H. split; [|split; [|split]].
  - intros b. unfold slotOf. by rewrite H.
  - intros Hok b l. unfold listenersAt. rewrite H. apply Hok.
  - intros b _. by rewrite H.
  - intros b. unfold kidsOf. by rewrite H.
Qed.

Lemma Frame_set_nextFn ids n s : Frame ids s (set_nextFn n s).
Proof. by apply Frame_heap_eq. Qed.

Lemma Frame_set_nextUid ids n s : Frame ids s (set_nextUid n s).
Proof. by apply Frame_heap_eq. Qed.

Lemma Frame_onElement ids f id s :
  id ∈ ids →
  (∀ e, slot (f e) = slot e) →
  (∀ e, elementChildren (f e) = elementChildren e) →
  (∀ e l, l ∈ listeners (f e) → l ∈ listeners e ∨ typedListener l) →
  Frame ids s (onElement f id s).
Proof.
  intros Hid Hslot Hkids Hls. split; [|split; [|split]].
  - intros b. unfold slotOf. rewrite heap_onElement. case_decide; [|done].
    destruct (heap s !! b) as [e|]; [|done]. simpl. by rewrite Hslot.
  - intros Hok b l. unfold listenersAt. rewrite heap_onElement.
    case_decide as Hb; [|apply Hok].
    destruct (heap s !! b) as [e|] eqn:He; simpl; [|by intros ?%elem_of_nil].
    intros [Hl|Hl]%Hls; [|done]. apply (Hok b). unfold listenersAt. by rewrite He.
  - intros b Hb. rewrite heap_onElement. case_decide; [|done]. by subst.
  - intros b. by apply kidsOf_onElement.
Qed.

Lemma setAttribute_listeners n v e l :
  l ∈ listeners (setAttribute n v e) → l ∈ listeners e ∨ typedListener l.
Proof. by left. Qed.

Lemma removeAttribute_listeners n e l :
  l ∈ listeners (removeAttribute n e) → l ∈ listeners e ∨ typedListener l.
Proof. by left. Qed.

Lemma addEventListener_slot ty f e : slot (addEventListener ty f e) = slot e.
Proof. unfold addEventListener. by destruct (existsb _ _). Qed.

Lemma addEventListener_children ty f e :
  elementChildren (addEventListener ty f e) = elementChildren e.
Proof. unfold addEventListener. by destruct (existsb _ _). Qed.

Lemma addEventListener_listeners ty f e l :
  typedListener (mkListener ty f) →
  l ∈ listeners (addEventListener ty f e) → l ∈ listeners e ∨ typedListener l.
Proof.
  intros Hty. unfold addEventListener. destruct (existsb _ _); [by left|]. simpl.
  intros [?|Hl]%elem_of_app; [by left|].
  apply list_elem_of_singleton in Hl as ->. by right.
Qed.

Lemma removeEventListener_listeners ty f e l :
  l ∈ listeners (removeEventListener ty f e) → l ∈ listeners e ∨ typedListener l.
Proof.
  unfold removeEventListener. simpl. rewrite !list_elem_of_In, filter_In. by intros [? _]; left.
Qed.

Lemma typed_click f : typedListener (mkListener "click" f).
Proof. by split. Qed.

Lemma typed_keyup n : typedListener (mkListener "keyup" (mkFn n KeydownHandler)).
Proof. by split. Qed.

Lemma typed_keydown n : typedListener (mkListener "keydown" (mkFn n PreventDefaultFn)).
Proof. by split. Qed.

Create HintDb wiring.
#[local] Hint Resolve typed_click typed_keyup typed_keydown : wiring.

Ltac frame_step :=
  first
    [ apply Frame_refl
    | eapply Frame_trans; [| apply Frame_set_nextFn]
    | eapply Frame_trans; [| apply Frame_set_nextUid]
    | eapply Frame_trans;
      [| apply Frame_onElement;
         [ repeat first [apply list_elem_of_here | apply list_elem_of_further]
         | intros; first [reflexivity | apply addEventListener_slot]
         | intros; first [reflexivity | apply addEventListener_children]
         | intros ? ?;
           first [ apply addEventListener_listeners; auto with wiring
                 | apply removeEventListener_listeners
                 | apply setAttribute_listeners
                 | apply removeAttribute_listeners ] ] ] ].

Ltac frame := unfold deselectButton, deselectPanel; cbv zeta; repeat frame_step.

Lemma cleanButton_run el ch kh s :
  ∃ s', cleanButton el ch kh s = (Normal tt, s') ∧
        Frame [el] s s' ∧
        children s' = children s ∧ selectedIndex s' = selectedIndex s ∧
        firstUpdate s' = firstUpdate s ∧ store s' = store s.
Proof.
  eexists. split; [reflexivity|]. split; [|done]. frame.
Qed.

Lemma setupEntry_run panels b i p s :
  panels !! i = Some p →
  ∃ X f entry,
    setupEntry panels b i s =
      (Normal tt,
       push entry
         (deselectButton b
            (deselectPanel p (onElement (addEventListener "keydown" f) b X)))) ∧
    button entry = b ∧ panel entry = Some p ∧ fnBody f = PreventDefaultFn ∧
    Frame [b; p] s X ∧
    children X = children s ∧ selectedIndex X = selectedIndex s ∧
    firstUpdate X = firstUpdate s ∧ store X = store s ∧ warnings X = warnings s.
Proof.
  intros Hp. unfold setupEntry. rewrite Hp.
  eexists _, _, _. split; [reflexivity|].
  split; [done|]. split; [done|]. split; [done|]. split; [|done]. frame.
Qed.

Lemma setupEntry_throws panels b i s :
  panels !! i = None →
  ∃ s', setupEntry panels b i s = (Abrupt TypeError, s') ∧
        heap s' = heap s ∧ store s' = store s.
Proof.
  intros Hp. unfold setupEntry. rewrite Hp. eexists. split; [reflexivity|]. done.
Qed.

Lemma Frame_push ids entry s : Frame ids s (push entry s).
Proof. by apply Frame_heap_eq. Qed.

Lemma Frame_slotOf ids s s' b : Frame ids s s' → slotOf s' b = slotOf s b.
Proof. by intros [H _]. Qed.

Lemma hasKeydown_heap s s' b :
  heap s' !! b = heap s !! b → hasKeydown s b → hasKeydown s' b.
Proof. intros H. unfold hasKeydown, listenersAt. by rewrite H. Qed.

Lemma hasKeydown_addEventListener f b s :
  is_Some (heap s !! b) →
  hasKeydown (onElement (addEventListener "keydown" f) b s) b.
Proof.
  intros [e He]. unfold hasKeydown, listenersAt.
  rewrite heap_onElement, decide_True, He by done. simpl.
  unfold addEventListener. destruct (existsb _ _) eqn:Hex.
  - apply existsb_exists in Hex as (l & Hl & Hsame).
    exists l. split; [by apply list_elem_of_In|].
    unfold sameListener in Hsame. apply andb_true_iff in Hsame as [Hty _].
    by apply bool_decide_eq_true in Hty.
  - exists (mkListener "keydown" f). split; [|done].
    simpl. apply elem_of_app. right. by apply list_elem_of_singleton.
Qed.

Lemma forEach_cons {A} (f : A → nat → M unit) x l k s :
  forEach f (x :: l) k s =
  match f x k s with
  | (Normal _, s') => forEach f l (S k) s'
  | (Abrupt e, s') => (Abrupt e, s')
  end.
Proof. done. Qed.

(** ** Teardown *)

Lemma cleanLoop st :
  ∀ k s, ∃ s',
    forEach cleanEntry st k s = (Normal tt, s') ∧
    Frame (map button st) s s' ∧
    children s' = children s ∧ selectedIndex s' = selectedIndex s ∧
    firstUpdate s' = firstUpdate s.
Proof.
  induction st as [|e st IH]; intros k s.
  - exists s. split; [done|]. split; [apply Frame_refl | done].
  - rewrite forEach_cons. unfold cleanEntry at 1.
    destruct (cleanButton_run (button e) (clickHandler e) (keydownHandler e) s)
      as (s1 & -> & HF1 & Hc1 & Hi1 & Hf1 & _).
    destruct (IH (S k) s1) as (s' & -> & HF & Hc & Hi & Hf).
    exists s'. split; [done|]. split; [|repeat split; congruence].
    eapply Frame_trans.
    + eapply Frame_weaken; [|exact HF1].
      intros x Hx. apply list_elem_of_singleton in Hx as ->. by left.
    + eapply Frame_weaken; [|exact HF]. intros x Hx. by right.
Qed.

Lemma cleanStore_run s :
  ∃ s', __cleanStore s = (Normal tt, s') ∧
        Frame (map button (default [] (store s))) s s' ∧
        children s' = children s ∧ selectedIndex s' = selectedIndex s ∧
        firstUpdate s' = firstUpdate s.
Proof.
  unfold __cleanStore. destruct (store s) as [st|].
  - apply cleanLoop.
  - exists s. split; [done|]. split; [apply Frame_refl | done].
Qed.

(** ** Setup *)

Lemma hasKeydown_sameListeners s s' b :
  sameListeners s s' → hasKeydown s b → hasKeydown s' b.
Proof. intros H. unfold hasKeydown. by rewrite H. Qed.

Lemma setupLoop panels bs :
  ∀ k s st0,
    NoDup bs →
    (∀ j, j < length bs → is_Some (panels !! (k + j))) →
    (∀ b, b ∈ bs → slotOf s b = Some "tab") →
    (∀ p, p ∈ panels → slotOf s p = Some "panel") →
    store s = Some st0 →
    ∃ s' ents,
      forEach (setupEntry panels) bs k s = (Normal tt, s') ∧
      Frame (bs ++ panels) s s' ∧
      children s' = children s ∧ selectedIndex s' = selectedIndex s ∧
      firstUpdate s' = firstUpdate s ∧ warnings s' = warnings s ∧
      store s' = Some (st0 ++ ents)%list ∧
      map button ents = bs ∧
      (∀ e p, e ∈ ents → panel e = Some p → p ∈ panels) ∧
      (∀ b, b ∈ bs → markedAt Deselected s' b ∧ hasKeydown s' b).
Proof.
  induction bs as [|b bs IH]; intros k s st0 Hnd Hpanels Htabs Hps Hst.
  - exists s, []. split; [done|]. split; [apply Frame_refl|].
    rewrite app_nil_r. do 6 (split; [done|]). split.
    + by intros e p ?%elem_of_nil.
    + by intros b ?%elem_of_nil.
  - apply NoDup_cons in Hnd as [Hb Hnd].
    destruct (Hpanels 0) as [p Hp]; [simpl; lia|]. rewrite Nat.add_0_r in Hp.
    assert (p ∈ panels) as Hpin by (by eapply list_elem_of_lookup_2).
    rewrite forEach_cons.
    destruct (setupEntry_run panels b k p s Hp)
      as (X & f & entry & -> & Hbt & Hpn & Hf & HX & HXc & HXi & HXf & HXs & HXw).
    set (Y := onElement (addEventListener "keydown" f) b X).
    set (s1 := push entry (deselectButton b (deselectPanel p Y))).
    assert (Frame [b; p] s s1) as HF1.
    { eapply Frame_trans; [exact HX|]. subst s1 Y.
      eapply Frame_trans; [|apply Frame_push].
      destruct f as [n body]. simpl in Hf. subst body. frame. }
    assert (is_Some (heap X !! b)) as HbX.
    { apply (slotOf_is_Some _ _ "tab").
      rewrite (Frame_slotOf _ _ _ _ HX). apply Htabs. by left. }
    assert (b ≠ p) as Hbp.
    { intros ->. specialize (Htabs p (list_elem_of_here _ _)).
      specialize (Hps p Hpin). congruence. }
    assert (markedAt Deselected s1 b) as Hm1.
    { apply (markedAt_heap _ (deselectButton b (deselectPanel p Y))); [done|].
      apply markedAt_deselectButton.
      rewrite heap_deselectPanel, decide_False by done.
      subst Y. rewrite heap_onElement, decide_True by done.
      destruct HbX as [e ->]. by eexists. }
    assert (hasKeydown s1 b) as Hk1.
    { apply (hasKeydown_sameListeners Y); [|by apply hasKeydown_addEventListener].
      eapply sameListeners_trans; [|apply sameListeners_deselectButton].
      by apply sameListeners_onElement. }
    assert (store s1 = Some (st0 ++ [entry])%list) as Hst1.
    { subst s1 Y. unfold push. simpl. by rewrite HXs, Hst. }
    destruct (IH (S k) s1 (st0 ++ [entry])%list Hnd) as
      (s' & ents & -> & HF & Hc & Hi & Hfu & Hw & Hstore & Hbuttons & Hpanels' & Hmarks).
    { intros j Hj. replace (S k + j) with (k + S j) by lia. apply Hpanels. simpl. lia. }
    { intros b' Hb'. rewrite (Frame_slotOf _ _ _ _ HF1). apply Htabs. by right. }
    { intros p' Hp'. rewrite (Frame_slotOf _ _ _ _ HF1). by apply Hps. }
    { done. }
    assert (heap s' !! b = heap s1 !! b) as Hsame.
    { destruct HF as (_ & _ & Hlocal). apply Hlocal.
      intros [Hin|Hin]%elem_of_app; [done|].
      specialize (Htabs b (list_elem_of_here _ _)). specialize (Hps b Hin). congruence. }
    exists s', (entry :: ents). split; [done|]. split.
    { eapply Frame_trans.
      - eapply Frame_weaken; [|exact HF1].
        intros x Hx. apply elem_of_cons in Hx as [->|Hx]; [by left|].
        apply list_elem_of_singleton in Hx as ->. right. apply elem_of_app. by right.
      - eapply Frame_weaken; [|exact HF]. intros x Hx. by right. }
    split; [by rewrite Hc|]. split; [by rewrite Hi|]. split; [by rewrite Hfu|].
    split; [by rewrite Hw|].
    split; [by rewrite Hstore, <- app_assoc|].
    split; [by simpl; rewrite Hbt, Hbuttons|]. split.
    + intros e p' [->|He]%elem_of_cons Hep; [congruence | by eapply Hpanels'].
    + intros b' [->|Hb']%elem_of_cons; [|by apply Hmarks].
      split; [by eapply markedAt_heap | by eapply hasKeydown_heap].
Qed.

Lemma querySlot_NoDup s sl : NoDup (descendants s) → NoDup (querySlot s sl).
Proof.
  intros H. unfold querySlot. apply NoDup_ListNoDup, List.NoDup_filter.
  by apply NoDup_ListNoDup.
Qed.

Lemma sameSlots_of_Frame ids s s' :
  Frame ids s s' → children s' = children s → sameSlots s s'.
Proof.
  intros (Hslots & _ & _ & Hkids) Hc. split; [|done]. by apply descendants_ext.
Qed.

Lemma setupStore_run s :
  NoDup (descendants s) →
  (length (querySlot s "tab") ≤ length (querySlot s "panel"))%nat →
  ∃ s' ents,
    __setupStore s = (Normal tt, s') ∧
    sameSlots s s' ∧ (ListenersOK s → ListenersOK s') ∧
    selectedIndex s' = selectedIndex s ∧ firstUpdate s' = firstUpdate s ∧
    store s' = Some ents ∧
    map button ents = querySlot s "tab" ∧
    (∀ e p, e ∈ ents → panel e = Some p → p ∈ querySlot s "panel") ∧
    (∀ b, b ∈ querySlot s "tab" → markedAt Deselected s' b ∧ hasKeydown s' b) ∧
    warnings s' =
      (if decide (length (querySlot s "tab") ≠ length (querySlot s "panel"))
       then (warnings s ++ [(length (querySlot s "tab"), length (querySlot s "panel"))])%list
       else warnings s) ∧
    children s' = children s.
Proof.
  intros Hnd Hlen.
  set (tabs := querySlot s "tab") in *. set (panels := querySlot s "panel") in *.
  set (s0 := set_store (Some []) s).
  set (s1 := if decide (length tabs ≠ length panels)
             then set_warnings (warnings s0 ++ [(length tabs, length panels)])%list s0
             else s0).
  assert (__setupStore s = forEach (setupEntry panels) tabs 0 s1) as ->.
  { unfold __setupStore, mbind, M_bind, bind, modify, gets. simpl.
    fold s0. change (querySlot s0 "tab") with tabs.
    change (querySlot s0 "panel") with panels. subst s1.
    by destruct (decide (length tabs ≠ length panels)). }
  assert (heap s1 = heap s ∧ children s1 = children s ∧
          selectedIndex s1 = selectedIndex s ∧ firstUpdate s1 = firstUpdate s ∧
          store s1 = Some []) as (Hh & Hc & Hi & Hf & Hst).
  { subst s1. by destruct (decide _). }
  assert (∀ b, slotOf s1 b = slotOf s b) as Hslots.
  { intros b. unfold slotOf. by rewrite Hh. }
  destruct (setupLoop panels tabs 0 s1 []) as
    (s' & ents & -> & HF & Hc' & Hi' & Hf' & Hw' & Hstore & Hbuttons & Hpanels & Hmarks).
  { by apply querySlot_NoDup. }
  { intros j Hj. apply lookup_lt_is_Some. simpl. lia. }
  { intros b [_ Hb]%querySlot_slotOf. by rewrite Hslots. }
  { intros p [_ Hp]%querySlot_slotOf. by rewrite Hslots. }
  { done. }
  exists s', ents. split; [done|]. split.
  { split.
    - apply descendants_ext; [congruence|]. intros b.
      destruct HF as (_ & _ & _ & ->). unfold kidsOf. by rewrite Hh.
    - intros b. destruct HF as [-> _]. apply Hslots. }
  split.
  { intros Hok. destruct HF as (_ & HL & _). apply HL.
    intros b l. unfold listenersAt. rewrite Hh. apply Hok. }
  split; [congruence|]. split; [congruence|]. split; [done|]. split; [done|].
  split; [done|]. split; [done|]. split; [|congruence].
  rewrite Hw'. subst s1. by destruct (decide _).
Qed.

(** A rebuild of a collection with a panel for every tab completes and leaves
    the tab group wired and marked. *)
Lemma handleSlotChange_run s :
  NoDup (descendants s) → ListenersOK s →
  (length (querySlot s "tab") ≤ length (querySlot s "panel"))%nat →
  ∃ s' st,
    handleSlotChange s = (Normal tt, s') ∧ Inv s' ∧
    children s' = children s ∧ selectedIndex s' = selectedIndex s ∧
    store s' = Some st ∧ length st = length (querySlot s "tab") ∧
    Marked s' ∧ sameSlots s s'.
Proof.
  intros Hnd Hok Hlen.
  destruct (cleanStore_run s) as (sA & HcleanEq & HFA & HcA & HiA & HfA).
  pose proof (sameSlots_of_Frame _ _ _ HFA HcA) as HsA.
  pose proof (sameSlots_querySlot _ _ "tab" HsA) as HtabsA.
  pose proof (sameSlots_querySlot _ _ "panel" HsA) as HpanelsA.
  destruct (setupStore_run sA) as
    (sB & ents & HsetupEq & HsB & HokB & HiB & HfB & HstB & Hbuttons & Hpanels & Hmarks
     & _ & HcB).
  { by destruct HsA as [-> _]. }
  { by rewrite HtabsA, HpanelsA. }
  pose proof (sameSlots_querySlot _ _ "tab" HsB) as HtabsB.
  set (sC := __updateSelected sB).
  pose proof (updateSelected_sameSlots sB) as HsC.
  pose proof (updateSelected_sameListeners sB) as HlC.
  destruct (updateSelected_frame sB) as (HstC & HcC & HiC & _).
  pose proof (sameSlots_querySlot _ _ "tab" HsC) as HtabsC.
  exists sC, ents. split.
  { unfold handleSlotChange, mbind, M_bind, bind, modify.
    by rewrite HcleanEq, HsetupEq. }
  assert (ListenersOK sB) as HokB'.
  { apply HokB. destruct HFA as (_ & HL & _). by apply HL. }
  split; [|split; [|split; [|split; [|split; [|split]]]]]; cycle 6.
  { eauto using sameSlots_trans. }
  - split.
    + unfold sC. destruct HsC as [-> _]. destruct HsB as [-> _]. by destruct HsA as [-> _].
    + exists ents. fold sC in HstC, HtabsC. rewrite HstC, HtabsC, HtabsB.
      split; [done|]. split; [done|].
      intros e p He Hp. destruct HsC as [_ ->]. destruct HsB as [_ ->].
      by apply (Hpanels e p He), querySlot_slotOf in Hp as [_ ?].
    + intros b l. rewrite HlC. apply HokB'.
    + intros b. fold sC in HtabsC. rewrite HtabsC, HtabsB. intros Hb.
      eapply hasKeydown_sameListeners; [exact HlC|]. by apply Hmarks.
  - fold sC in HcC. rewrite HcC. congruence.
  - fold sC in HiC. congruence.
  - by fold sC in HstC; rewrite HstC.
  - rewrite <- HtabsA, <- Hbuttons. by rewrite length_map.
  - unfold Marked. fold sC in HstC, HtabsC, HiC. rewrite HtabsC, HstC, HiC.
    assert (MarksOn (querySlot sB "tab") sB None) as HmB.
    { split; [done|]. intros b Hb. rewrite decide_False by done.
      rewrite HtabsB in Hb. by apply Hmarks. }
    destruct (at_index ents (selectedIndex sB)) as [entry|] eqn:Hentry.
    + exists (Some (button entry)). split.
      * apply (updateSelected_marks sB ents entry None); try done.
        -- by rewrite HtabsB.
        -- intros e p He Hp. destruct HsB as [_ ->].
           by apply (Hpanels e p He), querySlot_slotOf in Hp as [_ ?].
      * intros st' entry' Hst' Hentry'. congruence.
    + exists None. split.
      * subst sC. rewrite updateSelected_out_of_range; [done|].
        by rewrite HstB.
      * intros st' entry' Hst' Hentry'. congruence.
Qed.

(** ** Reachable states *)

(** The states of a tab group whose tabs all have a panel: after the first
    [slotchange], through the public setter, through events delivered to
    elements, and through later changes of the children.  The elements below
    the host form a tree: no element occurs twice among the descendants. *)
Inductive reachable : State → Prop :=
  | reach_initialize h cs :
      NoDup (descendants (created h cs)) →
      map_Forall (λ _ e, listeners e = []) h →
      (length (querySlot (created h cs) "tab")
       ≤ length (querySlot (created h cs) "panel"))%nat →
      reachable (initialize h cs)
  | reach_setter v s :
      reachable s → reachable (set_selectedIndex v s)
  | reach_event ty k b s :
      reachable s → reachable (snd (deliver ty k b s))
  | reach_slotchange cs s :
      reachable s → NoDup (descendants (set_children cs s)) →
      (length (querySlot (set_children cs s) "tab")
       ≤ length (querySlot (set_children cs s) "panel"))%nat →
      reachable (slotchange cs s).

Lemma fresh_ListenersOK h cs :
  map_Forall (λ _ e, listeners e = []) h →
  ListenersOK (firstUpdated (constructor (created h cs))).
Proof.
  intros Hfresh b l. unfold listenersAt.
  change (heap (firstUpdated (constructor (created h cs)))) with h.
  destruct (h !! b) as [e|] eqn:He; simpl; [|by intros ?%elem_of_nil].
  rewrite (Hfresh b e He). by intros ?%elem_of_nil.
Qed.

Lemma reachable_Synced s : reachable s → Synced s.
Proof.
  induction 1 as [h cs Hnd Hfresh Hlen | v s _ IH | ty k b s _ IH | cs s _ IH Hnd Hlen].
  - unfold initialize, exec.
    destruct (handleSlotChange_run (firstUpdated (constructor (created h cs))))
      as (s' & st & -> & HInv & _ & _ & _ & _ & HM & _);
      [done | by apply fresh_ListenersOK | done |].
    by split.
  - by apply Synced_set_selectedIndex.
  - by apply Synced_deliver.
  - unfold slotchange, exec.
    destruct (handleSlotChange_run (set_children cs s))
      as (s' & st & -> & HInv & _ & _ & _ & _ & HM & _);
      [done | exact (inv_listeners s (proj1 IH)) | done |].
    by split.
Qed.

Lemma reachable_Inv s : reachable s → Inv s.
Proof. intros H. exact (proj1 (reachable_Synced s H)). Qed.

Lemma reachable_Marked s : reachable s → tabsAreChildren s → Marked s.
Proof. intros H. exact (proj2 (reachable_Synced s H)). Qed.

Lemma at_index_Some {A} (l : list A) (i : Z) x :
  at_index l i = Some x ↔ (0 ≤ i)%Z ∧ l !! Z.to_nat i = Some x.
Proof.
  unfold at_index. case_decide; [by split; [|intros [_ ?]] |].
  split; [done | by intros [? _]].
Qed.

Lemma at_index_None {A} (l : list A) (i : Z) :
  (i < 0 ∨ Z.of_nat (length l) ≤ i)%Z → at_index l i = None.
Proof.
  intros H. unfold at_index. case_decide; [|done].
  apply lookup_ge_None. lia.
Qed.

Lemma at_index_in_range {A} (l : list A) (i : Z) :
  (0 ≤ i < Z.of_nat (length l))%Z → is_Some (at_index l i).
Proof.
  intros H. unfold at_index. rewrite decide_True by lia.
  apply lookup_lt_is_Some. lia.
Qed.

(** In a wired tab group with an in-range index, the trigger at that index is
    the marked one and all others are not. *)
Lemma Inv_marks_by_index s st :
  Inv s → Marked s → store s = Some st →
  (0 ≤ selectedIndex s < Z.of_nat (length st))%Z →
  NoDup (map button st) ∧
  ∀ j e, st !! j = Some e →
    markedAt (if decide (Z.of_nat j = selectedIndex s) then Selected else Deselected)
             s (button e).
Proof.
  intros [Hnd (st' & Hst' & Hbuttons & _) _ _] (cur & [_ Hmarks] & Hcur) Hst Hi.
  assert (st' = st) as -> by congruence.
  assert (NoDup (map button st)) as Hndb.
  { rewrite Hbuttons. by apply querySlot_NoDup. }
  split; [done|]. intros j e Hj.
  destruct (at_index_in_range st _ Hi) as [entry Hentry].
  rewrite (Hcur st entry Hst Hentry) in Hmarks.
  apply at_index_Some in Hentry as [_ Hentry].
  assert (button e ∈ querySlot s "tab") as Hin.
  { rewrite <- Hbuttons. apply list_elem_of_fmap. exists e. split; [done|].
    by eapply list_elem_of_lookup_2. }
  specialize (Hmarks _ Hin).
  assert (Z.of_nat j = selectedIndex s ↔ Some (button entry) = Some (button e)) as Hiff.
  { split.
    - intros Heq. rewrite <- Heq, Nat2Z.id in Hentry. congruence.
    - intros [= Heq].
      assert (j = Z.to_nat (selectedIndex s)); [|lia].
      eapply (NoDup_lookup (map button st)); [done | |].
      + by rewrite list_lookup_fmap, Hj.
      + rewrite list_lookup_fmap, Hentry. simpl. by rewrite Heq. }
  destruct (decide (Z.of_nat j = selectedIndex s)) as [Hj'|Hj'].
  - rewrite decide_True in Hmarks; [done|]. by apply Hiff.
  - rewrite decide_False in Hmarks; [done|]. by rewrite <- Hiff.
Qed.

(** ** Keyboard policy *)

(** The policy in the words of the specification: the index a key asks for,
    for [N] entries and the selected index [i]. *)
Definition keyTarget (N i : Z) (k : string) : option Z :=
  if bool_decide (k = "ArrowRight" ∨ k = "ArrowDown") then
    Some (if decide (i = N - 1)%Z then 0 else i + 1)%Z
  else if bool_decide (k = "ArrowLeft" ∨ k = "ArrowUp") then
    Some (if decide (i = 0)%Z then N - 1 else i - 1)%Z
  else if bool_decide (k = "Home") then Some 0%Z
  else if bool_decide (k = "End") then Some (N - 1)%Z
  else None.

Lemma key_in_cons k dp k1 ks :
  key_in (mkKeyEvent k dp) (k1 :: ks) =
  bool_decide (k = k1) || key_in (mkKeyEvent k dp) ks.
Proof.
  unfold key_in. simpl.
  destruct (decide (k = k1)) as [->|Hne].
  - rewrite (bool_decide_eq_true_2 (k1 ∈ k1 :: ks)) by (by left).
    by rewrite (bool_decide_eq_true_2 (k1 = k1)).
  - rewrite (bool_decide_eq_false_2 (k = k1)) by done. simpl.
    apply bool_decide_ext. rewrite elem_of_cons. split; [intros [?|?]; done | by right].
Qed.

Lemma key_in_nil k dp : key_in (mkKeyEvent k dp) [] = false.
Proof. unfold key_in. apply bool_decide_eq_false_2. by intros ?%elem_of_nil. Qed.

Ltac run_handler Hst :=
  unfold mbind, M_bind, bind, gets, _pairCount, modify, mret, M_ret, ret;
  repeat (first [rewrite Hst | case_decide]; simpl); try lia; eauto.

Ltac other_key H :=
  rewrite ?(bool_decide_eq_false_2 _ H).

Lemma handleButtonKeydown_policy s st k dp :
  store s = Some st →
  (0 ≤ selectedIndex s < Z.of_nat (length st))%Z →
  ∃ e', __handleButtonKeydown (mkKeyEvent k dp) s =
        (Normal e',
         match keyTarget (Z.of_nat (length st)) (selectedIndex s) k with
         | Some t => set_selectedIndex t s
         | None => s
         end).
Proof.
  intros Hst Hi. unfold __handleButtonKeydown, keyTarget.
  rewrite !key_in_cons, !key_in_nil, !orb_false_r.
  destruct (decide (k = "ArrowDown")) as [->|HD].
  { rewrite (bool_decide_eq_true_2 (_ ∨ _)) by (by right). simpl. run_handler Hst. }
  destruct (decide (k = "ArrowRight")) as [->|HR].
  { rewrite (bool_decide_eq_true_2 (_ ∨ _)) by (by left). simpl. run_handler Hst. }
  assert (¬ (k = "ArrowRight" ∨ k = "ArrowDown")) as HRD by (intros [?|?]; done).
  other_key HD. other_key HR. other_key HRD. simpl.
  destruct (decide (k = "ArrowUp")) as [->|HU].
  { rewrite (bool_decide_eq_true_2 (_ ∨ _)) by (by right). simpl. run_handler Hst. }
  destruct (decide (k = "ArrowLeft")) as [->|HL].
  { rewrite (bool_decide_eq_true_2 (_ ∨ _)) by (by left). simpl. run_handler Hst. }
  assert (¬ (k = "ArrowLeft" ∨ k = "ArrowUp")) as HLU by (intros [?|?]; done).
  other_key HU. other_key HL. other_key HLU. simpl.
  destruct (decide (k = "Home")) as [->|HH].
  { simpl. run_handler Hst. }
  other_key HH.
  destruct (decide (k = "End")) as [->|HE].
  { simpl. run_handler Hst. }
  other_key HE. run_handler Hst.
Qed.

(** A keyup of [k] handled by [__handleButtonKeydown]. *)
Definition press (k : string) (s : State) : State :=
  exec (__handleButtonKeydown (mkKeyEvent k false)) s.

(** The selected index after each of [n] presses of [k]. *)
Fixpoint visited (k : string) (n : nat) (s : State) : list Z :=
  match n with
  | O => []
  | S n' => selectedIndex (press k s) :: visited k n' (press k s)
  end.

Lemma press_policy s st k :
  store s = Some st →
  (0 ≤ selectedIndex s < Z.of_nat (length st))%Z →
  press k s = match keyTarget (Z.of_nat (length st)) (selectedIndex s) k with
              | Some t => set_selectedIndex t s
              | None => s
              end.
Proof.
  intros Hst Hi. unfold press, exec.
  destruct (handleButtonKeydown_policy s st k false Hst Hi) as [e' ->]. done.
Qed.

Lemma keyTarget_next N i k :
  k = "ArrowRight" ∨ k = "ArrowDown" →
  keyTarget N i k = Some (if decide (i = N - 1)%Z then 0 else i + 1)%Z.
Proof. intros H. unfold keyTarget. by rewrite bool_decide_eq_true_2. Qed.

Lemma visited_next st k :
  k = "ArrowRight" ∨ k = "ArrowDown" →
  ∀ n s i,
    store s = Some st → selectedIndex s = Z.of_nat i →
    i + S n = length st →
    visited k (S n) s = (map Z.of_nat (seq (S i) n) ++ [0%Z])%list.
Proof.
  intros Hk. induction n as [|n IH]; intros s i Hst Hi Hlen.
  - simpl. rewrite (press_policy s st) by (done || lia).
    rewrite keyTarget_next by done.
    case_decide; [|lia].
    by destruct (set_selectedIndex_frame 0 s) as (_ & _ & -> & _).
  - change (visited k (S (S n)) s)
      with (selectedIndex (press k s) :: visited k (S n) (press k s)).
    rewrite (press_policy s st) by (done || lia).
    rewrite keyTarget_next by done.
    case_decide; [lia|].
    destruct (set_selectedIndex_frame (selectedIndex s + 1) s) as (Hs & _ & Hv & _).
    rewrite Hv, (IH _ (S i)); [| by rewrite Hs | rewrite Hv; lia | lia].
    simpl. f_equal. lia.
Qed.

(** C4. For [N] entries and a selected index within them, ArrowRight and
    ArrowDown select the next index and wrap to 0 after the last, ArrowLeft and
    ArrowUp select the previous index and wrap to [N-1] before the first, Home
    selects 0 and End selects [N-1]; the handler does not throw and commits at
    once through the setter (index stored, notification dispatched); any
    other key changes nothing.  Pressing "next" [N] times from index 0 visits
    1, 2, ..., [N-1], 0: every index exactly once, ending on 0. *)
Theorem tabs_keyboard_navigation (s : State) (st : list Entry) :
  store s = Some st → 0 < length st →
  (∀ k dp, (0 ≤ selectedIndex s < Z.of_nat (length st))%Z →
     threw (__handleButtonKeydown (mkKeyEvent k dp)) s = false ∧
     match keyTarget (Z.of_nat (length st)) (selectedIndex s) k with
     | Some t =>
         exec (__handleButtonKeydown (mkKeyEvent k dp)) s = set_selectedIndex t s ∧
         selectedIndex (exec (__handleButtonKeydown (mkKeyEvent k dp)) s) = t ∧
         dispatched (exec (__handleButtonKeydown (mkKeyEvent k dp)) s) =
           (dispatched s ++ ["selected-changed"])%list
     | None => exec (__handleButtonKeydown (mkKeyEvent k dp)) s = s
     end) ∧
  (selectedIndex s = 0%Z →
   ∀ k, k = "ArrowRight" ∨ k = "ArrowDown" →
     visited k (length st) s =
       (map Z.of_nat (seq 1 (length st - 1)) ++ [0%Z])%list ∧
     NoDup (visited k (length st) s) ∧
     (∀ i, (0 ≤ i < Z.of_nat (length st))%Z ↔ i ∈ visited k (length st) s) ∧
     last (visited k (length st) s) = Some 0%Z).
Proof.
  intros Hst HN. split.
  - intros k dp Hi. unfold threw, exec.
    destruct (handleButtonKeydown_policy s st k dp Hst Hi) as [e' ->]. simpl.
    split; [done|].
    destruct (keyTarget _ _ k) as [t|]; [|done].
    by destruct (set_selectedIndex_frame t s) as (_ & _ & -> & ->).
  - intros H0 k Hk.
    assert (visited k (length st) s =
            (map Z.of_nat (seq 1 (length st - 1)) ++ [0%Z])%list) as Hv.
    { destruct (length st) as [|n] eqn:Hn; [lia|].
      rewrite (visited_next st k Hk n s 0); [| done | by rewrite H0 | lia].
      by replace (S n - 1) with n by lia. }
    rewrite Hv. split; [done|]. split; [|split].
    + apply NoDup_app. split; [|split].
      * apply (NoDup_fmap_2 Z.of_nat), NoDup_seq.
      * intros x [j [-> Hj%elem_of_seq]]%list_elem_of_fmap ?%list_elem_of_singleton. lia.
      * apply NoDup_singleton.
    + intros i. rewrite elem_of_app, list_elem_of_singleton, list_elem_of_fmap. split.
      * intros Hi. destruct (decide (i = 0%Z)) as [->|Hne]; [by right|].
        left. exists (Z.to_nat i). split; [lia|]. apply elem_of_seq. lia.
      * intros [[j [-> Hj%elem_of_seq]] | ->]; lia.
    + apply last_snoc.
Qed.

(** ** Three tabs with their panels *)

Definition blank (sl : string) : Element := mkElement sl ∅ [] [].

Definition three_pairs : gmap nat Element :=
  list_to_map [(0, blank "tab"); (1, blank "panel"); (2, blank "tab");
               (3, blank "panel"); (4, blank "tab"); (5, blank "panel")].

Definition three_tabs : State := initialize three_pairs [0; 1; 2; 3; 4; 5].

Lemma three_tabs_reachable : reachable three_tabs.
Proof.
  apply reach_initialize.
  - apply (bool_decide_unpack _). by vm_compute.
  - apply (bool_decide_unpack _). by vm_compute.
  - vm_compute. lia.
Qed.

Definition three_entries : list Entry :=
  [mkEntry "0" 0 (Some 1) (mkFn 0 (ClickHandler 0)) (mkFn 1 KeydownHandler);
   mkEntry "1" 2 (Some 3) (mkFn 3 (ClickHandler 1)) (mkFn 4 KeydownHandler);
   mkEntry "2" 4 (Some 5) (mkFn 6 (ClickHandler 2)) (mkFn 7 KeydownHandler)].

Lemma three_tabs_store : store three_tabs = Some three_entries.
Proof. vm_compute. reflexivity. Qed.

Lemma three_tabs_selectedIndex : selectedIndex three_tabs = 0%Z.
Proof. vm_compute. reflexivity. Qed.

Lemma keyTarget_End N i : keyTarget N i "End" = Some (N - 1)%Z.
Proof. reflexivity. Qed.

Lemma tabs_keyboard_navigation_witness :
  selectedIndex (exec (__handleButtonKeydown (mkKeyEvent "End" false)) three_tabs)
    = (Z.of_nat (length three_entries) - 1)%Z ∧
  visited "ArrowRight" (length three_entries) three_tabs =
    (map Z.of_nat (seq 1 (length three_entries - 1)) ++ [0%Z])%list.
Proof.
  destruct (tabs_keyboard_navigation three_tabs three_entries three_tabs_store)
    as [Hpolicy Hcycle].
  { simpl. lia. }
  split.
  - destruct (Hpolicy "End" false) as [_ H].
    { rewrite three_tabs_selectedIndex. simpl. lia. }
    rewrite keyTarget_End in H. exact (proj1 (proj2 H)).
  - exact (proj1 (Hcycle three_tabs_selectedIndex "ArrowRight" (or_introl eq_refl))).
Defined.

(** The end-to-end scenario of the specification: End selects the third tab,
    which then carries the marks and the focus; Home returns to the first. *)
Example three_tabs_end_home :
  let s1 := snd (deliver "keyup" "End" 0 three_tabs) in
  let s2 := snd (deliver "keyup" "Home" 4 s1) in
  selectedIndex s1 = 2%Z ∧ focused s1 = Some 4 ∧
  attrOf s1 4 "selected" = Some "true" ∧ attrOf s1 0 "selected" = None ∧
  selectedIndex s2 = 0%Z ∧ focused s2 = Some 0 ∧
  attrOf s2 0 "selected" = Some "true" ∧ attrOf s2 4 "selected" = None.
Proof. vm_compute. repeat split. Qed.

(** ** Commit requests for an index outside the registry *)

(** C1, as the code has it.  The tab setter never rejects: every call stores
    the index and dispatches one [selected-changed], also when the index is
    the one already committed.  For an index outside the registry only the
    synchronizer is skipped, so that no element, no focus and nothing of the
    registry changes.  (Tab entries have no disabled flag.) *)
Theorem setter_out_of_range (s : State) (i : Z) :
  (∀ st, store s = Some st → (i < 0 ∨ Z.of_nat (length st) ≤ i)%Z) →
  (selectedIndex (set_selectedIndex i s) = i ∧
   dispatched (set_selectedIndex i s) = (dispatched s ++ ["selected-changed"])%list ∧
   heap (set_selectedIndex i s) = heap s ∧
   focused (set_selectedIndex i s) = focused s ∧
   store (set_selectedIndex i s) = store s ∧
   children (set_selectedIndex i s) = children s) ∧
  (∀ v, selectedIndex (set_selectedIndex v s) = v ∧
        dispatched (set_selectedIndex v s)
          = (dispatched s ++ ["selected-changed"])%list ∧
        dispatched (set_selectedIndex v (set_selectedIndex v s))
          = (dispatched s ++ ["selected-changed"; "selected-changed"])%list).
Proof.
  intros Hrange. split.
  - destruct (set_selectedIndex_frame i s) as (Hst & Hc & Hi & Hd).
    split; [done|]. split; [done|].
    assert (__updateSelected (set___selectedIndex i (set_firstUpdate false s))
            = set___selectedIndex i (set_firstUpdate false s)) as Heq.
    { apply updateSelected_out_of_range. simpl.
      destruct (store s) as [st|] eqn:Hs; [|done]. simpl.
      apply at_index_None. by apply Hrange. }
    unfold set_selectedIndex. cbv zeta. rewrite Heq. done.
  - intros v.
    destruct (set_selectedIndex_frame v s) as (_ & _ & Hi & Hd).
    destruct (set_selectedIndex_frame v (set_selectedIndex v s)) as (_ & _ & _ & Hd').
    split; [done|]. split; [done|]. by rewrite Hd', Hd, <- app_assoc.
Qed.

Lemma setter_out_of_range_witness :
  selectedIndex (set_selectedIndex 5 three_tabs) = 5%Z ∧
  dispatched (set_selectedIndex 5 three_tabs)
    = (dispatched three_tabs ++ ["selected-changed"])%list ∧
  heap (set_selectedIndex 5 three_tabs) = heap three_tabs.
Proof.
  destruct (setter_out_of_range three_tabs 5) as [(H1 & H2 & H3 & _) _].
  - intros st. rewrite three_tabs_store. intros [= <-]. simpl. lia.
  - exact (conj H1 (conj H2 H3)).
Defined.

(** C1 as stated fails for the tabs: index 5 is out of range of three tabs, yet
    the committed index changes and a notification is dispatched. *)
Lemma setter_out_of_range_counterexample :
  store three_tabs = Some three_entries ∧
  selectedIndex three_tabs = 0%Z ∧
  selectedIndex (set_selectedIndex 5 three_tabs) = 5%Z ∧
  dispatched three_tabs = ["selected-changed"] ∧
  dispatched (set_selectedIndex 5 three_tabs) = ["selected-changed"; "selected-changed"].
Proof. vm_compute. repeat split. Qed.

(** ** Exactly one selected trigger *)

Lemma three_tabs_flat : tabsAreChildren three_tabs.
Proof.
  unfold tabsAreChildren.
  assert (querySlot three_tabs "tab" = [0; 2; 4]) as -> by (vm_compute; reflexivity).
  assert (children three_tabs = [0; 1; 2; 3; 4; 5]) as -> by (vm_compute; reflexivity).
  intros b. rewrite !elem_of_cons, !elem_of_nil. lia.
Qed.

(** C3, as the code has it.  In every reachable state of a tab group whose tabs
    all have a panel and are all children of the host, if the committed index
    lies within the registry then the trigger at that index carries
    [selected], [aria-selected="true"] and [tabindex="0"], and every other
    trigger has no [selected], [aria-selected="false"] and [tabindex="-1"];
    the triggers are distinct elements.  Every commit of an in-range index
    re-establishes this for the new index. *)
Theorem selected_trigger_invariant (s : State) (st : list Entry) :
  reachable s → tabsAreChildren s → store s = Some st →
  NoDup (map button st) ∧
  ((0 ≤ selectedIndex s < Z.of_nat (length st))%Z →
   ∀ j e, st !! j = Some e →
     markedAt (if decide (Z.of_nat j = selectedIndex s) then Selected else Deselected)
              s (button e)) ∧
  (∀ v, (0 ≤ v < Z.of_nat (length st))%Z →
   ∀ j e, st !! j = Some e →
     markedAt (if decide (Z.of_nat j = v) then Selected else Deselected)
              (set_selectedIndex v s) (button e)).
Proof.
  intros Hreach Hflat Hst.
  pose proof (reachable_Inv s Hreach) as HInv.
  pose proof (reachable_Marked s Hreach Hflat) as HM.
  split; [|split].
  - destruct HInv as [Hnd (st' & Hst' & Hbuttons & _) _ _].
    assert (st' = st) as -> by congruence.
    rewrite Hbuttons. by apply querySlot_NoDup.
  - intros Hi. by apply Inv_marks_by_index.
  - intros v Hv j e Hj.
    pose proof (Inv_set_selectedIndex v s HInv) as HInv'.
    pose proof (Marked_set_selectedIndex v s HInv Hflat HM) as HM'.
    destruct (set_selectedIndex_frame v s) as (Hst' & _ & Hsel & _).
    rewrite Hst in Hst'.
    destruct (Inv_marks_by_index _ st HInv' HM' Hst') as [_ H].
    { by rewrite Hsel. }
    specialize (H j e Hj). by rewrite Hsel in H.
Qed.

Lemma selected_trigger_invariant_witness :
  markedAt Selected three_tabs 0 ∧ markedAt Deselected three_tabs 2 ∧
  markedAt Selected (set_selectedIndex 1 three_tabs) 2.
Proof.
  destruct (selected_trigger_invariant three_tabs three_entries
              three_tabs_reachable three_tabs_flat three_tabs_store)
    as (_ & Hnow & Hnext).
  split; [|split].
  - assert (0 ≤ selectedIndex three_tabs < Z.of_nat (length three_entries))%Z as Hi.
    { rewrite three_tabs_selectedIndex. simpl. lia. }
    pose proof (Hnow Hi 0 _ eq_refl) as H.
    rewrite three_tabs_selectedIndex in H. exact H.
  - assert (0 ≤ selectedIndex three_tabs < Z.of_nat (length three_entries))%Z as Hi.
    { rewrite three_tabs_selectedIndex. simpl. lia. }
    pose proof (Hnow Hi 1 _ eq_refl) as H.
    rewrite three_tabs_selectedIndex in H. exact H.
  - assert (0 ≤ 1 < Z.of_nat (length three_entries))%Z as Hv by (simpl; lia).
    exact (Hnext 1%Z Hv 1 _ eq_refl).
Defined.

(** The index is set out of range, then the children change (here: to the same
    children). *)
Definition unselected_tabs : State :=
  slotchange [0; 1; 2; 3; 4; 5] (set_selectedIndex 5 three_tabs).

(** C3 as stated fails: this state is reachable, its three triggers are
    children of the host and it has three entries, but no trigger carries
    [selected] and every one has [tabindex="-1"]. *)
Lemma selected_trigger_counterexample :
  reachable unselected_tabs ∧
  querySlot unselected_tabs "tab" = [0; 2; 4] ∧
  children unselected_tabs = [0; 1; 2; 3; 4; 5] ∧
  (length <$> store unselected_tabs) = Some 3 ∧
  List.filter (elementHas unselected_tabs "tab" "selected") (descendants unselected_tabs) = [] ∧
  map (λ e, attrOf unselected_tabs (button e) "tabindex")
      (default [] (store unselected_tabs)) = [Some "-1"; Some "-1"; Some "-1"].
Proof.
  split.
  - apply reach_slotchange.
    + apply reach_setter, three_tabs_reachable.
    + apply (bool_decide_unpack _). by vm_compute.
    + vm_compute. lia.
  - vm_compute. repeat split.
Qed.

(** ** A trigger below a panel *)

(** A tab group whose first panel holds another group with a tab and a panel
    of its own: tab 0, panel 1, and inside panel 1 the element 2 with the
    tab 3 and the panel 4. *)
Definition nested_group : gmap nat Element :=
  list_to_map [(0, blank "tab"); (1, mkElement "panel" ∅ [] [2]);
               (2, mkElement "" ∅ [] [3; 4]); (3, blank "tab"); (4, blank "panel")].

Definition nested_tabs : State := initialize nested_group [0; 1].

(** The rebuild registers every descendant with the tab slot, the nested tab
    3 as well, while the synchronizer looks for the trigger to deselect among
    the children of the host only.  After a commit of the nested trigger's
    index and then of index 0, both triggers are marked as selected. *)
Theorem nested_trigger_stays_selected :
  reachable nested_tabs ∧
  children nested_tabs = [0; 1] ∧
  descendants nested_tabs = [0; 1; 2; 3; 4] ∧
  map button (default [] (store nested_tabs)) = [0; 3] ∧
  map panel (default [] (store nested_tabs)) = [Some 1; Some 4] ∧
  map (λ b, attrOf nested_tabs b "selected") [0; 3] = [Some "true"; None] ∧
  map (λ b, attrOf (set_selectedIndex 1 nested_tabs) b "selected") [0; 3]
    = [None; Some "true"] ∧
  selectedIndex (set_selectedIndex 0 (set_selectedIndex 1 nested_tabs)) = 0%Z ∧
  map (λ b, attrOf (set_selectedIndex 0 (set_selectedIndex 1 nested_tabs)) b "selected")
      [0; 3] = [Some "true"; Some "true"] ∧
  map (λ b, attrOf (set_selectedIndex 0 (set_selectedIndex 1 nested_tabs)) b "tabindex")
      [0; 3] = [Some "0"; Some "0"].
Proof.
  split.
  - apply reach_initialize.
    + apply (bool_decide_unpack _). by vm_compute.
    + apply (bool_decide_unpack _). by vm_compute.
    + vm_compute. lia.
  - vm_compute. repeat split.
Qed.

(** ** Default actions of key events *)

Definition recognizedKeys : list string :=
  ["ArrowDown"; "ArrowRight"; "ArrowUp"; "ArrowLeft"; "Home"; "End"].

Lemma handleButtonKeydown_other_key e s :
  key e ∉ recognizedKeys → __handleButtonKeydown e s = (Normal e, s).
Proof.
  intros Hk. unfold __handleButtonKeydown, key_in.
  rewrite !bool_decide_eq_false_2; [done | | | |];
    intros Hin; apply Hk; unfold recognizedKeys;
    repeat (apply elem_of_cons in Hin as [->|Hin]; [set_solver|]);
    by apply elem_of_nil in Hin.
Qed.

Lemma runListeners_keydown ls :
  (∀ l, l ∈ ls → fnBody (evFn l) = PreventDefaultFn) →
  ∀ e s, runListeners ls e s =
         (mkKeyEvent (key e) (defaultPrevented e || negb (bool_decide (ls = []))), s).
Proof.
  induction ls as [|l ls IH]; intros Hls e s.
  - simpl. destruct e as [k dp]. simpl. by rewrite orb_false_r.
  - simpl. unfold runListener. rewrite (Hls l) by left. simpl.
    rewrite IH by (intros l' Hl'; apply Hls; by right). simpl.
    by rewrite orb_true_r.
Qed.

Lemma runListeners_keyup ls :
  (∀ l, l ∈ ls → fnBody (evFn l) = KeydownHandler) →
  ∀ e s, key e ∉ recognizedKeys → runListeners ls e s = (e, s).
Proof.
  induction ls as [|l ls IH]; intros Hls e s Hk; [done|].
  simpl. unfold runListener. rewrite (Hls l) by left.
  rewrite handleButtonKeydown_other_key by done.
  apply IH; [|done]. intros l' Hl'. apply Hls. by right.
Qed.

Lemma listenersOf_elem s ty b l :
  l ∈ listenersOf s ty b ↔ l ∈ listenersAt s b ∧ evType l = ty.
Proof.
  unfold listenersOf, listenersAt. destruct (heap s !! b) as [e|]; simpl.
  - rewrite !list_elem_of_In, filter_In. by rewrite bool_decide_eq_true.
  - split; [by intros ?%elem_of_nil | by intros [?%elem_of_nil _]].
Qed.

(** C9, where the code departs from it.  On a registered trigger of a
    reachable tab group every keydown event has its default action
    suppressed, whatever the key - Tab and the letters as well as the keys of
    the policy - and changes nothing else.  Only the keyup listener looks at
    the key: a keyup event whose key the policy does not recognize is left
    untouched, as is the state. *)
Theorem trigger_key_defaults (s : State) (st : list Entry) (entry : Entry) :
  reachable s → store s = Some st → entry ∈ st →
  (∀ k, deliver "keydown" k (button entry) s = (mkKeyEvent k true, s)) ∧
  (∀ k, k ∉ recognizedKeys →
        deliver "keyup" k (button entry) s = (mkKeyEvent k false, s)).
Proof.
  intros Hreach Hst Hentry.
  destruct (reachable_Inv s Hreach)
    as [_ (st' & Hst' & Hbuttons & _) Hok Hkd].
  assert (st' = st) as -> by congruence.
  assert (button entry ∈ querySlot s "tab") as Hin.
  { rewrite <- Hbuttons. apply list_elem_of_fmap. eauto. }
  split.
  - intros k. unfold deliver. rewrite runListeners_keydown.
    + simpl. destruct (Hkd _ Hin) as (l & Hl & Hty).
      rewrite bool_decide_eq_false_2; [done|].
      intros Hnil. assert (l ∈ listenersOf s "keydown" (button entry)) as Hl'
        by (by apply listenersOf_elem).
      rewrite Hnil in Hl'. by apply elem_of_nil in Hl'.
    + intros l [Hl Hty]%listenersOf_elem. by apply (Hok _ _ Hl).
  - intros k Hk. unfold deliver. apply runListeners_keyup; [|done].
    intros l [Hl Hty]%listenersOf_elem. by apply (Hok _ _ Hl).
Qed.

Lemma trigger_key_defaults_witness :
  deliver "keydown" "Tab" 0 three_tabs = (mkKeyEvent "Tab" true, three_tabs) ∧
  deliver "keyup" "Tab" 0 three_tabs = (mkKeyEvent "Tab" false, three_tabs).
Proof.
  destruct (trigger_key_defaults three_tabs three_entries
              (mkEntry "0" 0 (Some 1) (mkFn 0 (ClickHandler 0)) (mkFn 1 KeydownHandler))
              three_tabs_reachable three_tabs_store) as [Hdown Hup].
  { by left. }
  split; [exact (Hdown "Tab")|].
  apply (Hup "Tab"). apply (bool_decide_unpack _). by vm_compute.
Defined.

(** The default actions on the first of three tabs.  The keydown of a letter
    is suppressed.  Of the keys of the policy, the keyup listener suppresses
    the default action for ArrowUp, ArrowLeft, Home and End, and not for
    ArrowDown and ArrowRight. *)
Example key_defaults_on_three_tabs :
  ("a" ∉ recognizedKeys) ∧
  defaultPrevented (fst (deliver "keydown" "a" 0 three_tabs)) = true ∧
  map (λ k, defaultPrevented (fst (deliver "keyup" k 0 three_tabs))) recognizedKeys
    = [false; false; true; true; true; true].
Proof.
  split.
  - apply (bool_decide_unpack _). by vm_compute.
  - vm_compute. by split.
Qed.

(** ** Rebuilds *)

Definition two_tabs_one_panel : gmap nat Element :=
  list_to_map [(0, blank "tab"); (1, blank "panel"); (2, blank "tab")].

(** C5, at its failing input: with two tabs and one panel the rebuild warns,
    wires the first pair and then throws in [setupPanel], whose element is
    undefined; the second tab is left unwired and nothing is selected. *)
Lemma rebuild_more_tabs_than_panels :
  let s0 := firstUpdated (constructor (created two_tabs_one_panel [0; 1; 2])) in
  fst (handleSlotChange s0) = Abrupt TypeError ∧
  warnings (exec handleSlotChange s0) = [(2, 1)] ∧
  (length <$> store (exec handleSlotChange s0)) = Some 1 ∧
  listenersAt (exec handleSlotChange s0) 2 = [] ∧
  List.filter (elementHas (exec handleSlotChange s0) "tab" "selected") [0; 1; 2] = [].
Proof. vm_compute. repeat split. Qed.

Definition one_pair : gmap nat Element :=
  list_to_map [(0, blank "tab"); (1, blank "panel")].

Definition kinds (s : State) (b : nat) : list (string * FnBody) :=
  map (λ l, (evType l, fnBody (evFn l))) (listenersAt s b).

(** C6, at its failing input: after a second rebuild of the same pair the
    trigger still carries the keydown listener of the first rebuild, beside
    the three listeners a single rebuild leaves. *)
Lemma rebuild_twice_leaks_keydown :
  let once := initialize one_pair [0; 1] in
  let twice := slotchange [0; 1] once in
  kinds once 0 =
    [("click", ClickHandler 0); ("keyup", KeydownHandler); ("keydown", PreventDefaultFn)] ∧
  kinds twice 0 =
    [("keydown", PreventDefaultFn); ("click", ClickHandler 0);
     ("keyup", KeydownHandler); ("keydown", PreventDefaultFn)] ∧
  map fnId (map evFn (listenersAt once 0)) = [0; 1; 2] ∧
  map fnId (map evFn (listenersAt twice 0)) = [2; 4; 5; 6].
Proof. vm_compute. repeat split. Qed.

(** ** More on rebuilds *)

Lemma forEach_invariant {A} (f : A → nat → M unit) (Q : State → Prop) :
  (∀ x i s, Q s → Q (snd (f x i s))) →
  ∀ l k s, Q s → Q (snd (forEach f l k s)).
Proof.
  intros Hf. induction l as [|x l IH]; intros k s HQ; [done|].
  rewrite forEach_cons. specialize (Hf x k s HQ).
  destruct (f x k s) as [[[]|err] s']; simpl in Hf; [by apply IH | done].
Qed.

Lemma forEach_invariant_index {A} (f : A → nat → M unit) (Q : nat → State → Prop) :
  (∀ x i s, Q i s → fst (f x i s) = Normal tt → Q (S i) (snd (f x i s))) →
  ∀ l k s, Q k s → fst (forEach f l k s) = Normal tt →
           Q (k + length l) (snd (forEach f l k s)).
Proof.
  intros Hf. induction l as [|x l IH]; intros k s HQ Hn.
  - simpl. by rewrite Nat.add_0_r.
  - rewrite forEach_cons in Hn |- *. specialize (Hf x k s HQ).
    destruct (f x k s) as [[[]|err] s']; simpl in *; [|done].
    replace (k + S (length l)) with (S k + length l) by lia.
    apply IH; [by apply Hf | done].
Qed.

(** What the teardown and the setup of a rebuild leave alone: the first-update
    flag, the focus and the dispatched events. *)
Definition quiet (U : bool) (F : option nat) (D : list string) (s : State) : Prop :=
  firstUpdate s = U ∧ focused s = F ∧ dispatched s = D.

Lemma cleanStore_quiet U F D s : quiet U F D s → quiet U F D (snd (__cleanStore s)).
Proof.
  unfold __cleanStore. destruct (store s) as [st|]; [|done].
  apply forEach_invariant. by intros e i s' (<- & <- & <-).
Qed.

Lemma setupEntry_quiet panels U F D b i s :
  quiet U F D s → quiet U F D (snd (setupEntry panels b i s)).
Proof.
  intros (<- & <- & <-). unfold setupEntry. by destruct (panels !! i).
Qed.

(** The state in which the loop of [__setupStore] starts. *)
Definition setupStart (s : State) : State :=
  let s0 := set_store (Some []) s in
  let n := length (querySlot s "tab") in
  let m := length (querySlot s "panel") in
  if decide (n ≠ m) then set_warnings (warnings s0 ++ [(n, m)])%list s0 else s0.

Lemma setupStore_unfold s :
  __setupStore s =
  forEach (setupEntry (querySlot s "panel")) (querySlot s "tab") 0 (setupStart s).
Proof.
  unfold __setupStore, setupStart, mbind, M_bind, bind, modify, gets. simpl.
  change (querySlot (set_store (Some []) s) "tab") with (querySlot s "tab").
  change (querySlot (set_store (Some []) s) "panel") with (querySlot s "panel").
  by destruct (decide _).
Qed.

Lemma setupStore_quiet U F D s : quiet U F D s → quiet U F D (snd (__setupStore s)).
Proof.
  intros HQ. rewrite setupStore_unfold. apply forEach_invariant.
  - intros. by apply setupEntry_quiet.
  - unfold setupStart. cbv zeta. by destruct (decide _).
Qed.

Lemma updateSelected_focused s :
  focused (__updateSelected s) =
  match store s ≫= (λ st, at_index st (selectedIndex s)) with
  | Some entry => if firstUpdate s then focused s else Some (button entry)
  | None => focused s
  end.
Proof.
  unfold __updateSelected. destruct (store s ≫= _) as [entry|]; [|done].
  cbv zeta.
  generalize (List.find (elementHas s "tab" "selected") (children s)) as fb.
  generalize (List.find (elementHas s "panel" "selected") (children s)) as fp.
  intros fp fb. by destruct fp, fb, (firstUpdate s), (panel entry).
Qed.

Lemma handleSlotChange_unfold s :
  handleSlotChange s =
  match __cleanStore s with
  | (Normal _, sA) =>
      match __setupStore sA with
      | (Normal _, sB) => (Normal tt, __updateSelected sB)
      | (Abrupt e, sB) => (Abrupt e, sB)
      end
  | (Abrupt e, sA) => (Abrupt e, sA)
  end.
Proof.
  unfold handleSlotChange, mbind, M_bind, bind, modify.
  destruct (__cleanStore s) as [[[]|?] sA]; [|done].
  by destruct (__setupStore sA) as [[[]|?] sB].
Qed.

Lemma handleSlotChange_first_update F D s :
  quiet true F D s → quiet true F D (snd (handleSlotChange s)).
Proof.
  intros HQ. rewrite handleSlotChange_unfold.
  pose proof (cleanStore_quiet _ _ _ _ HQ) as HA.
  destruct (__cleanStore s) as [[[]|?] sA]; simpl in HA; [|done].
  pose proof (setupStore_quiet _ _ _ _ HA) as HB.
  destruct (__setupStore sA) as [[[]|?] sB]; simpl in HB; [|done].
  simpl. destruct HB as (HU & HF & HD).
  destruct (updateSelected_frame sB) as (_ & _ & _ & Hd & _).
  split; [|split].
  - unfold __updateSelected. destruct (store sB ≫= _) as [entry|]; [|done].
    cbv zeta.
    generalize (List.find (elementHas sB "tab" "selected") (children sB)) as fb.
    generalize (List.find (elementHas sB "panel" "selected") (children sB)) as fp.
    intros fp fb. rewrite HU. by destruct fp, fb, (panel entry).
  - rewrite updateSelected_focused, HU. by destruct (store sB ≫= _).
  - by rewrite Hd.
Qed.

(** The first synchronization does not take the page focus: as long as no
    commit has been made, a rebuild selects the trigger of the committed index
    without focusing it and dispatches nothing; a commit of an index within
    the registry focuses the trigger of that index. *)
Theorem focus_only_after_commit (s : State) :
  (firstUpdate s = true →
   ∀ cs, focused (slotchange cs s) = focused s ∧
         dispatched (slotchange cs s) = dispatched s ∧
         firstUpdate (slotchange cs s) = true) ∧
  (∀ st v entry, store s = Some st → at_index st v = Some entry →
     focused (set_selectedIndex v s) = Some (button entry) ∧
     firstUpdate (set_selectedIndex v s) = false).
Proof.
  split.
  - intros HU cs. unfold slotchange, exec.
    destruct (handleSlotChange_first_update (focused s) (dispatched s)
                (set_children cs s)) as (H1 & H2 & H3); [done|]. done.
  - intros st v entry Hst Hentry.
    set (s2 := set___selectedIndex v (set_firstUpdate false s)).
    assert (focused (set_selectedIndex v s) = focused (__updateSelected s2)) as -> by done.
    assert (firstUpdate (set_selectedIndex v s) = firstUpdate (__updateSelected s2)) as -> by done.
    rewrite updateSelected_focused. subst s2. simpl. rewrite Hst. simpl.
    rewrite Hentry. split; [done|].
    unfold __updateSelected. simpl. rewrite Hst. simpl. rewrite Hentry.
    cbv zeta.
    generalize (List.find (elementHas (set___selectedIndex v (set_firstUpdate false s))
                  "tab" "selected") (children s)) as fb.
    generalize (List.find (elementHas (set___selectedIndex v (set_firstUpdate false s))
                  "panel" "selected") (children s)) as fp.
    intros fp fb. by destruct fp, fb, (panel entry).
Qed.

Lemma three_tabs_first_update :
  firstUpdate (firstUpdated (constructor (created three_pairs [0; 1; 2; 3; 4; 5]))) = true.
Proof. reflexivity. Qed.

Lemma focus_only_after_commit_witness :
  focused three_tabs = None ∧
  focused (set_selectedIndex 1 three_tabs) = Some 2.
Proof.
  split.
  - exact (proj1 (proj1 (focus_only_after_commit
             (firstUpdated (constructor (created three_pairs [0; 1; 2; 3; 4; 5]))))
             three_tabs_first_update [0; 1; 2; 3; 4; 5])).
  - exact (proj1 (proj2 (focus_only_after_commit three_tabs) three_entries 1%Z
             (mkEntry "1" 2 (Some 3) (mkFn 3 (ClickHandler 1)) (mkFn 4 KeydownHandler))
             three_tabs_store eq_refl)).
Defined.

Lemma setupEntry_store panels b i s :
  fst (setupEntry panels b i s) = Normal tt →
  ∃ entry, store (snd (setupEntry panels b i s))
             = Some (default [] (store s) ++ [entry])%list ∧
           button entry = b ∧ panel entry = panels !! i.
Proof.
  unfold setupEntry. destruct (panels !! i) as [p|]; [|done].
  intros _. by eexists.
Qed.

(** The entries built so far pair the tabs with the panels by position. *)
Definition paired (tabs panels : list nat) (k : nat) (s : State) : Prop :=
  ∃ st, store s = Some st ∧ length st = k ∧
        ∀ j e, st !! j = Some e →
               Some (button e) = tabs !! j ∧ panel e = panels !! j.

Lemma setupLoop_paired panels tabs0 :
  ∀ bs k s,
    (∀ j b, bs !! j = Some b → tabs0 !! (k + j) = Some b) →
    paired tabs0 panels k s →
    fst (forEach (setupEntry panels) bs k s) = Normal tt →
    paired tabs0 panels (k + length bs) (snd (forEach (setupEntry panels) bs k s)).
Proof.
  induction bs as [|b bs IH]; intros k s Hbs HQ Hn.
  - simpl. by rewrite Nat.add_0_r.
  - rewrite forEach_cons in Hn |- *.
    pose proof (setupEntry_store panels b k s) as Hstep.
    destruct (setupEntry panels b k s) as [[[]|err] s']; simpl in *; [|done].
    destruct (Hstep eq_refl) as (entry & Hst' & Hb & Hp).
    destruct HQ as (st & Hst & Hlen & Hpairs). rewrite Hst in Hst'. simpl in Hst'.
    replace (k + S (length bs)) with (S k + length bs) by lia.
    apply IH; [| |done].
    + intros j b' Hj. replace (S k + j) with (k + S j) by lia. by apply Hbs.
    + exists (st ++ [entry])%list. split; [done|]. split.
      { rewrite length_app. simpl. lia. }
      intros j e Hj. apply lookup_app_Some in Hj as [Hj|[Hge Hj]].
      * by apply Hpairs.
      * apply list_lookup_singleton_Some in Hj as [Hj0 <-].
        assert (j = k) as -> by lia. rewrite Hb, Hp. split; [|done].
        symmetry. rewrite <- (Nat.add_0_r k). by apply Hbs.
Qed.

Lemma cleanStore_warnings s : warnings (snd (__cleanStore s)) = warnings s.
Proof.
  unfold __cleanStore. destruct (store s) as [st|]; [|done].
  by apply (forEach_invariant cleanEntry (λ s', warnings s' = warnings s)); [intros e i s' <-|].
Qed.

(** A rebuild of children in which every tab has a panel - there may be more
    panels than tabs - does not throw.  It builds one entry per tab, pairing
    the j-th tab with the j-th panel in document order, keeps the committed
    index, and warns exactly when the numbers of tabs and panels differ. *)
Theorem rebuild_pairs_tabs_with_panels (s : State) (cs : list nat) :
  reachable s → NoDup (descendants (set_children cs s)) →
  (length (querySlot (set_children cs s) "tab")
   ≤ length (querySlot (set_children cs s) "panel"))%nat →
  fst (handleSlotChange (set_children cs s)) = Normal tt ∧
  children (slotchange cs s) = cs ∧
  selectedIndex (slotchange cs s) = selectedIndex s ∧
  (∃ st, store (slotchange cs s) = Some st ∧
         length st = length (querySlot (set_children cs s) "tab") ∧
         ∀ j e, st !! j = Some e →
                Some (button e) = querySlot (set_children cs s) "tab" !! j ∧
                panel e = querySlot (set_children cs s) "panel" !! j) ∧
  warnings (slotchange cs s) =
    (if decide (length (querySlot (set_children cs s) "tab")
                ≠ length (querySlot (set_children cs s) "panel"))
     then (warnings s ++ [(length (querySlot (set_children cs s) "tab"),
                           length (querySlot (set_children cs s) "panel"))])%list
     else warnings s).
Proof.
  intros Hreach Hnd Hlen.
  set (s0 := set_children cs s) in *.
  pose proof (inv_listeners s (reachable_Inv s Hreach)) as Hok.
  destruct (handleSlotChange_run s0 Hnd Hok Hlen)
    as (s' & st & Heq & _ & Hc & Hi & Hst & Hlenst & _).
  unfold slotchange, exec. fold s0. rewrite Heq. simpl.
  split; [done|]. split; [done|]. split; [done|].
  rewrite handleSlotChange_unfold in Heq.
  destruct (cleanStore_run s0) as (sA & HcleanEq & HFA & HcA & _).
  pose proof (cleanStore_warnings s0) as HwA. rewrite HcleanEq in Heq, HwA. simpl in HwA.
  pose proof (sameSlots_of_Frame _ _ _ HFA HcA) as HsA.
  pose proof (sameSlots_querySlot _ _ "tab" HsA) as HtabsA.
  pose proof (sameSlots_querySlot _ _ "panel" HsA) as HpanelsA.
  destruct (setupStore_run sA) as (sB & ents & HsetupEq & _ & _ & _ & _ & _ & _ & _ & _ & Hw & _).
  { by destruct HsA as [-> _]. }
  { by rewrite HtabsA, HpanelsA. }
  pose proof (setupLoop_paired (querySlot sA "panel") (querySlot sA "tab")
                (querySlot sA "tab") 0 (setupStart sA)) as Hpaired.
  rewrite <- setupStore_unfold, HsetupEq in Hpaired. simpl in Hpaired.
  rewrite HsetupEq in Heq. injection Heq as <-.
  destruct (updateSelected_frame sB) as (HstC & _ & _ & _ & HwC).
  split.
  - destruct Hpaired as (st' & Hst' & Hlen' & Hpairs); [done | | done |].
    { exists []. split; [|split; [done|]].
      - unfold setupStart. cbv zeta. by destruct (decide _).
      - by intros j e ?. }
    exists st'. rewrite HstC. split; [done|].
    rewrite <- HtabsA, <- HpanelsA. done.
  - rewrite HwC, Hw, HtabsA, HpanelsA, HwA. done.
Qed.

Definition three_tabs_four_panels : gmap nat Element :=
  list_to_map [(0, blank "tab"); (1, blank "panel"); (2, blank "tab");
               (3, blank "panel"); (4, blank "tab"); (5, blank "panel");
               (6, blank "panel")].

Lemma rebuild_pairs_tabs_with_panels_witness :
  fst (handleSlotChange (set_children [0; 1; 2; 3; 4; 5] three_tabs)) = Normal tt ∧
  children (slotchange [0; 1; 2; 3; 4; 5] three_tabs) = [0; 1; 2; 3; 4; 5] ∧
  selectedIndex (slotchange [0; 1; 2; 3; 4; 5] three_tabs) = selectedIndex three_tabs.
Proof.
  destruct (rebuild_pairs_tabs_with_panels three_tabs [0; 1; 2; 3; 4; 5]
              three_tabs_reachable) as (H1 & H2 & H3 & _).
  - apply (bool_decide_unpack _). by vm_compute.
  - vm_compute. lia.
  - exact (conj H1 (conj H2 H3)).
Defined.

(** More panels than tabs: the rebuild warns and completes. *)
Example rebuild_with_spare_panel :
  let s := initialize three_tabs_four_panels [0; 1; 2; 3; 4; 5; 6] in
  warnings s = [(3, 4)] ∧ (length <$> store s) = Some 3 ∧
  attrOf s 0 "selected" = Some "true" ∧ attrOf s 6 "id" = None.
Proof. vm_compute. repeat split. Qed.

(** ** Next and previous undo each other *)

Lemma keyTarget_previous N i k :
  k = "ArrowLeft" ∨ k = "ArrowUp" →
  keyTarget N i k = Some (if decide (i = 0)%Z then N - 1 else i - 1)%Z.
Proof. intros [-> | ->]; reflexivity. Qed.

(** With the selected index within the registry, a "previous" key after a
    "next" key, and a "next" key after a "previous" key, lead back to the same
    index; the registry is not changed on the way. *)
Theorem next_previous_inverse (s : State) (st : list Entry) (next previous : string) :
  store s = Some st →
  (0 ≤ selectedIndex s < Z.of_nat (length st))%Z →
  next = "ArrowRight" ∨ next = "ArrowDown" →
  previous = "ArrowLeft" ∨ previous = "ArrowUp" →
  selectedIndex (press previous (press next s)) = selectedIndex s ∧
  selectedIndex (press next (press previous s)) = selectedIndex s ∧
  store (press previous (press next s)) = Some st ∧
  store (press next (press previous s)) = Some st.
Proof.
  intros Hst Hi Hn Hp.
  set (N := Z.of_nat (length st)) in *.
  assert (∀ v, (0 ≤ v < N)%Z →
          store (set_selectedIndex v s) = Some st ∧
          (0 ≤ selectedIndex (set_selectedIndex v s) < N)%Z ∧
          selectedIndex (set_selectedIndex v s) = v) as Hset.
  { intros v Hv. destruct (set_selectedIndex_frame v s) as (H1 & _ & H2 & _).
    rewrite H1, H2. done. }
  assert (∀ v s', store s' = Some st → (0 ≤ v < N)%Z →
          store (set_selectedIndex v s') = Some st ∧
          selectedIndex (set_selectedIndex v s') = v) as Hset'.
  { intros v s' Hs' Hv. destruct (set_selectedIndex_frame v s') as (H1 & _ & H2 & _).
    by rewrite H1, H2. }
  rewrite (press_policy s st next Hst Hi), (press_policy s st previous Hst Hi).
  fold N. rewrite (keyTarget_next N _ next Hn), (keyTarget_previous N _ previous Hp).
  set (a := (if decide (selectedIndex s = N - 1)%Z then 0 else selectedIndex s + 1)%Z).
  set (b := (if decide (selectedIndex s = 0)%Z then N - 1 else selectedIndex s - 1)%Z).
  assert (0 ≤ a < N)%Z as Ha by (subst a; case_decide; lia).
  assert (0 ≤ b < N)%Z as Hb by (subst b; case_decide; lia).
  destruct (Hset a Ha) as (Hsa & Hia & Hva). destruct (Hset b Hb) as (Hsb & Hib & Hvb).
  rewrite (press_policy _ st previous Hsa Hia), (press_policy _ st next Hsb Hib).
  fold N. rewrite (keyTarget_next N _ next Hn), (keyTarget_previous N _ previous Hp).
  rewrite Hva, Hvb.
  set (a' := (if decide (a = 0)%Z then N - 1 else a - 1)%Z).
  set (b' := (if decide (b = N - 1)%Z then 0 else b + 1)%Z).
  assert (a' = selectedIndex s) as Ha'.
  { subst a' a. repeat case_decide; lia. }
  assert (b' = selectedIndex s) as Hb'.
  { subst b' b. repeat case_decide; lia. }
  destruct (Hset' a' _ Hsa) as [H1 H2]; [lia|].
  destruct (Hset' b' _ Hsb) as [H3 H4]; [lia|].
  rewrite H1, H2, H3, H4. done.
Qed.

Lemma next_previous_inverse_witness :
  selectedIndex (press "ArrowLeft" (press "ArrowRight" three_tabs))
    = selectedIndex three_tabs ∧
  selectedIndex (press "ArrowDown" (press "ArrowUp" three_tabs))
    = selectedIndex three_tabs.
Proof.
  assert (0 ≤ selectedIndex three_tabs < Z.of_nat (length three_entries))%Z as Hi.
  { rewrite three_tabs_selectedIndex. simpl. lia. }
  split.
  - exact (proj1 (next_previous_inverse three_tabs three_entries "ArrowRight" "ArrowLeft"
             three_tabs_store Hi (or_introl eq_refl) (or_introl eq_refl))).
  - exact (proj1 (proj2 (next_previous_inverse three_tabs three_entries "ArrowDown" "ArrowUp"
             three_tabs_store Hi (or_intror eq_refl) (or_intror eq_refl)))).
Defined.

(** ** Click and keyup listeners are never duplicated *)

(** The listeners of one event type on an element. *)
Definition typeList (ty : string) (e : Element) : list Listener :=
  List.filter (λ l, bool_decide (evType l = ty)) (listeners e).

Lemma listenersOf_typeList s ty b :
  listenersOf s ty b = from_option (typeList ty) [] (heap s !! b).
Proof. unfold listenersOf. by destruct (heap s !! b). Qed.

Lemma filter_filter_comm {A} (f g : A → bool) (l : list A) :
  List.filter f (List.filter g l) = List.filter g (List.filter f l).
Proof.
  induction l as [|x l IH]; [done|]. simpl.
  destruct (f x) eqn:Hf, (g x) eqn:Hg; simpl; rewrite ?Hf, ?Hg, ?IH; done.
Qed.

Lemma filter_all_false {A} (f : A → bool) (l : list A) :
  (∀ x, x ∈ l → f x = false) → List.filter f l = [].
Proof.
  induction l as [|x l IH]; intros H; [done|]. simpl.
  rewrite (H x) by left. apply IH. intros y Hy. apply H. by right.
Qed.

Lemma filter_all_true {A} (f : A → bool) (l : list A) :
  (∀ x, x ∈ l → f x = true) → List.filter f l = l.
Proof.
  induction l as [|x l IH]; intros H; [done|]. simpl.
  rewrite (H x) by left. f_equal. apply IH. intros y Hy. apply H. by right.
Qed.

Lemma typeList_removeEventListener ty ty' f e :
  typeList ty (removeEventListener ty' f e) =
  if decide (ty = ty')
  then List.filter (λ l, negb (bool_decide (fnId (evFn l) = fnId f))) (typeList ty e)
  else typeList ty e.
Proof.
  unfold typeList, removeEventListener. simpl. rewrite filter_filter_comm.
  set (l0 := List.filter (λ l, bool_decide (evType l = ty)) (listeners e)).
  assert (∀ x, x ∈ l0 → evType x = ty) as Hty.
  { intros x Hx. subst l0. apply list_elem_of_In, filter_In in Hx as [_ Hx].
    by apply bool_decide_eq_true in Hx. }
  clearbody l0. case_decide as Heq.
  - subst ty'. induction l0 as [|x l0 IH]; [done|]. simpl.
    unfold sameListener at 1. rewrite (bool_decide_eq_true_2 (evType x = ty)) by (apply Hty; left).
    simpl. destruct (bool_decide (fnId (evFn x) = fnId f)); simpl;
      rewrite IH; try done; intros y Hy; apply Hty; by right.
  - apply filter_all_true. intros x Hx. unfold sameListener.
    rewrite bool_decide_eq_false_2; [done|]. rewrite (Hty x Hx). done.
Qed.

Lemma existsb_sameListener ty f ls :
  existsb (sameListener ty f) ls =
  existsb (λ l, bool_decide (fnId (evFn l) = fnId f))
          (List.filter (λ l, bool_decide (evType l = ty)) ls).
Proof.
  induction ls as [|x ls IH]; [done|]. simpl. unfold sameListener at 1.
  destruct (bool_decide (evType x = ty)); simpl; by rewrite IH.
Qed.

Lemma typeList_addEventListener ty ty' f e :
  typeList ty (addEventListener ty' f e) =
  if decide (ty = ty')
  then (if existsb (λ l, bool_decide (fnId (evFn l) = fnId f)) (typeList ty e)
        then typeList ty e
        else typeList ty e ++ [mkListener ty f])%list
  else typeList ty e.
Proof.
  unfold addEventListener. rewrite existsb_sameListener.
  case_decide as Heq.
  - subst ty'. fold (typeList ty e). destruct (existsb _ (typeList ty e)); [done|].
    unfold typeList. simpl. rewrite List.filter_app. simpl.
    by rewrite bool_decide_eq_true_2.
  - destruct (existsb _ _); [done|]. unfold typeList. simpl.
    rewrite List.filter_app. simpl. rewrite bool_decide_eq_false_2 by done.
    by rewrite app_nil_r.
Qed.

Lemma listenersOf_onElement f id s ty b :
  listenersOf (onElement f id s) ty b =
  if decide (id = b)
  then from_option (λ e, typeList ty (f e)) [] (heap s !! b)
  else listenersOf s ty b.
Proof.
  rewrite !listenersOf_typeList, heap_onElement. case_decide; [|done].
  by destruct (heap s !! b).
Qed.

Lemma listenersOf_sameListeners s s' ty b :
  sameListeners s s' → listenersOf s' ty b = listenersOf s ty b.
Proof.
  intros H.
  assert (∀ x, listenersOf x ty b =
               List.filter (λ l, bool_decide (evType l = ty)) (listenersAt x b)) as Heq.
  { intros x. unfold listenersOf, listenersAt. by destruct (heap x !! b). }
  by rewrite !Heq, H.
Qed.

Lemma onElement_is_Some f id s b :
  is_Some (heap (onElement f id s) !! b) ↔ is_Some (heap s !! b).
Proof.
  rewrite heap_onElement. case_decide; [|done]. by rewrite fmap_is_Some.
Qed.

Lemma listenersOf_attribute f id s ty b :
  (∀ e, listeners (f e) = listeners e) →
  listenersOf (onElement f id s) ty b = listenersOf s ty b.
Proof.
  intros Hf. rewrite listenersOf_onElement. case_decide; [|done].
  rewrite listenersOf_typeList. destruct (heap s !! b) as [e|]; [|done].
  simpl. unfold typeList. by rewrite Hf.
Qed.

Lemma listenersOf_remove ty' g id s ty b :
  listenersOf (onElement (removeEventListener ty' g) id s) ty b =
  if decide (id = b ∧ ty = ty')
  then List.filter (λ l, negb (bool_decide (fnId (evFn l) = fnId g))) (listenersOf s ty b)
  else listenersOf s ty b.
Proof.
  rewrite listenersOf_onElement, (listenersOf_typeList s).
  destruct (decide (id = b)) as [->|Hne].
  - destruct (heap s !! b) as [e|]; simpl.
    + rewrite typeList_removeEventListener.
      destruct (decide (ty = ty')) as [->|Hty].
      * by rewrite decide_True.
      * rewrite decide_False; [done|]. by intros [_ ?].
    + by case_decide.
  - by rewrite decide_False; [|by intros [? _]].
Qed.

Lemma listenersOf_add ty' g id s ty b :
  is_Some (heap s !! id) →
  listenersOf (onElement (addEventListener ty' g) id s) ty b =
  if decide (id = b ∧ ty = ty')
  then (if existsb (λ l, bool_decide (fnId (evFn l) = fnId g)) (listenersOf s ty b)
        then listenersOf s ty b
        else listenersOf s ty b ++ [mkListener ty g])%list
  else listenersOf s ty b.
Proof.
  intros [e He]. rewrite listenersOf_onElement, (listenersOf_typeList s).
  destruct (decide (id = b)) as [->|Hne].
  - rewrite He. simpl. rewrite typeList_addEventListener.
    destruct (decide (ty = ty')) as [->|Hty].
    + by rewrite decide_True.
    + rewrite decide_False; [done|]. by intros [_ ?].
  - by rewrite decide_False; [|by intros [? _]].
Qed.

Lemma listenersOf_set_nextFn n s ty b :
  listenersOf (set_nextFn n s) ty b = listenersOf s ty b.
Proof. done. Qed.

Lemma listenersOf_set_nextUid n s ty b :
  listenersOf (set_nextUid n s) ty b = listenersOf s ty b.
Proof. done. Qed.

Lemma listenersOf_push entry s ty b :
  listenersOf (push entry s) ty b = listenersOf s ty b.
Proof. done. Qed.

(** The handler of an entry for an event type. *)
Definition handlerOf (ty : string) (ch kh : Fn) : Fn :=
  if decide (ty = "click") then ch else kh.

Lemma cleanButton_listenersOf el ch kh s ty b :
  ty = "click" ∨ ty = "keyup" →
  listenersOf (snd (cleanButton el ch kh s)) ty b =
  if decide (el = b)
  then List.filter (λ l, negb (bool_decide (fnId (evFn l) = fnId (handlerOf ty ch kh))))
                   (listenersOf s ty b)
  else listenersOf s ty b.
Proof.
  intros Hty. unfold cleanButton, mbind, M_bind, bind, modify, newFn. simpl.
  rewrite !listenersOf_remove, listenersOf_set_nextFn, !listenersOf_remove.
  rewrite !listenersOf_attribute by done.
  unfold handlerOf.
  destruct (decide (el = b)) as [->|Hne].
  - destruct Hty as [-> | ->]; simpl; repeat case_decide; try done;
      try (exfalso; intuition congruence).
  - repeat case_decide; try done; exfalso; intuition congruence.
Qed.

Lemma set_nextFn_is_Some n s b :
  is_Some (heap (set_nextFn n s) !! b) ↔ is_Some (heap s !! b).
Proof. done. Qed.

Lemma set_nextUid_is_Some n s b :
  is_Some (heap (set_nextUid n s) !! b) ↔ is_Some (heap s !! b).
Proof. done. Qed.

Ltac still_there :=
  repeat first [ rewrite onElement_is_Some
               | rewrite set_nextFn_is_Some
               | rewrite set_nextUid_is_Some ];
  assumption.

Lemma setupEntry_listenersOf panels b i p s :
  panels !! i = Some p → b ≠ p → is_Some (heap s !! b) →
  ∃ entry,
    setupEntry panels b i s = (Normal tt, snd (setupEntry panels b i s)) ∧
    store (snd (setupEntry panels b i s)) = Some (default [] (store s) ++ [entry])%list ∧
    button entry = b ∧
    fnBody (clickHandler entry) = ClickHandler i ∧
    fnBody (keydownHandler entry) = KeydownHandler ∧
    ∀ ty b', ty = "click" ∨ ty = "keyup" →
      listenersOf (snd (setupEntry panels b i s)) ty b' =
      if decide (b = b')
      then (let h := handlerOf ty (clickHandler entry) (keydownHandler entry) in
            if existsb (λ l, bool_decide (fnId (evFn l) = fnId h)) (listenersOf s ty b')
            then listenersOf s ty b'
            else listenersOf s ty b' ++ [mkListener ty h])%list
      else listenersOf s ty b'.
Proof.
  intros Hp Hbp Hb. unfold setupEntry. rewrite Hp.
  unfold mbind, M_bind, bind, uuid, __createButtonClickHandler, newFn,
    setupPanel, setupButton, modify. simpl.
  eexists. split; [reflexivity|]. split; [reflexivity|].
  split; [reflexivity|]. split; [reflexivity|]. split; [reflexivity|].
  intros ty b' Hty. simpl.
  rewrite listenersOf_push. unfold deselectButton, deselectPanel. cbv zeta.
  rewrite !listenersOf_attribute by done.
  rewrite listenersOf_add by still_there.
  rewrite listenersOf_set_nextFn.
  rewrite listenersOf_add by still_there.
  rewrite listenersOf_add by still_there.
  rewrite !listenersOf_attribute by done.
  rewrite !listenersOf_set_nextFn, listenersOf_set_nextUid.
  unfold handlerOf.
  destruct (decide (b = b')) as [->|Hne].
  - destruct Hty as [-> | ->]; simpl; repeat case_decide; try done;
      try (exfalso; intuition congruence).
  - repeat case_decide; try done; exfalso; intuition congruence.
Qed.

(** The listeners of type [ty] that the entries [st] own on the element [b]. *)
Definition ownListeners (ty : string) (st : list Entry) (b : nat) : list Listener :=
  map (λ e, mkListener ty (handlerOf ty (clickHandler e) (keydownHandler e)))
      (List.filter (λ e, bool_decide (button e = b)) st).

(** Every element carries exactly the click and keyup listeners of the
    entries registered for it, and the handlers are those of the entry's
    position. *)
Definition Wired (s : State) : Prop :=
  let st := default [] (store s) in
  NoDup (map button st) ∧
  (∀ ty b, ty = "click" ∨ ty = "keyup" → listenersOf s ty b = ownListeners ty st b) ∧
  (∀ j e, st !! j = Some e →
          fnBody (clickHandler e) = ClickHandler j ∧
          fnBody (keydownHandler e) = KeydownHandler).

Lemma ownListeners_not_in ty st b : b ∉ map button st → ownListeners ty st b = [].
Proof.
  intros Hb. unfold ownListeners. rewrite filter_all_false; [done|].
  intros e He. apply bool_decide_eq_false_2. intros <-.
  apply Hb, list_elem_of_fmap. eauto.
Qed.

Lemma ownListeners_app ty st1 st2 b :
  ownListeners ty (st1 ++ st2) b = (ownListeners ty st1 b ++ ownListeners ty st2 b)%list.
Proof. unfold ownListeners. by rewrite List.filter_app, map_app. Qed.

Lemma cleanLoop_unwires st :
  ∀ k s,
    NoDup (map button st) →
    (∀ ty b, ty = "click" ∨ ty = "keyup" → listenersOf s ty b = ownListeners ty st b) →
    ∀ ty b, ty = "click" ∨ ty = "keyup" →
            listenersOf (snd (forEach cleanEntry st k s)) ty b = [].
Proof.
  induction st as [|e st IH]; intros k s Hnd Hown ty b Hty.
  - simpl. by rewrite Hown.
  - rewrite forEach_cons. unfold cleanEntry at 1.
    destruct (cleanButton_run (button e) (clickHandler e) (keydownHandler e) s)
      as (s1 & Heq & _).
    pose proof (cleanButton_listenersOf (button e) (clickHandler e) (keydownHandler e) s)
      as Hclean.
    rewrite Heq in Hclean |- *. simpl in Hclean.
    simpl in Hnd. apply NoDup_cons in Hnd as [He Hnd].
    apply IH; [done | | done].
    intros ty' b' Hty'. rewrite Hclean, Hown by done.
    unfold ownListeners at 1 2. simpl.
    destruct (decide (button e = b')) as [<-|Hne].
    + rewrite bool_decide_eq_true_2 by done. simpl.
      rewrite bool_decide_eq_true_2 by done. simpl.
      fold (ownListeners ty' st (button e)).
      by rewrite !ownListeners_not_in.
    + by rewrite bool_decide_eq_false_2.
Qed.

Lemma setupEntry_slotOf panels b i s b' :
  slotOf (snd (setupEntry panels b i s)) b' = slotOf s b'.
Proof.
  destruct (panels !! i) as [p|] eqn:Hp.
  - destruct (setupEntry_run panels b i p s Hp)
      as (X & f & entry & -> & _ & _ & Hf & HX & _).
    simpl. rewrite <- (Frame_slotOf _ _ _ b' HX).
    apply (Frame_slotOf [b; p]).
    eapply Frame_trans; [|apply Frame_push].
    destruct f as [n body]. simpl in Hf. subst body. frame.
  - destruct (setupEntry_throws panels b i s Hp) as (s' & -> & Hh & _).
    simpl. unfold slotOf. by rewrite Hh.
Qed.

(** The first [k] tabs are registered and wired. *)
Definition WiredUpTo (tabs : list nat) (k : nat) (s : State) : Prop :=
  ∃ st, store s = Some st ∧ map button st = take k tabs ∧
        (∀ ty b, ty = "click" ∨ ty = "keyup" →
                 listenersOf s ty b = ownListeners ty st b) ∧
        (∀ j e, st !! j = Some e →
                fnBody (clickHandler e) = ClickHandler j ∧
                fnBody (keydownHandler e) = KeydownHandler).

Lemma setupLoop_wires panels tabs :
  NoDup tabs →
  ∀ bs k s,
    (∀ j b, bs !! j = Some b → tabs !! (k + j) = Some b) →
    (∀ b, b ∈ tabs → slotOf s b = Some "tab") →
    (∀ p, p ∈ panels → slotOf s p = Some "panel") →
    WiredUpTo tabs k s →
    fst (forEach (setupEntry panels) bs k s) = Normal tt →
    WiredUpTo tabs (k + length bs) (snd (forEach (setupEntry panels) bs k s)).
Proof.
  intros Hnd. induction bs as [|b bs IH]; intros k s Hbs Htabs Hpanels HW Hn.
  - simpl. by rewrite Nat.add_0_r.
  - rewrite forEach_cons in Hn |- *.
    assert (tabs !! k = Some b) as Hk.
    { rewrite <- (Nat.add_0_r k). by apply Hbs. }
    assert (b ∈ tabs) as Hbin by (by eapply list_elem_of_lookup_2).
    destruct (panels !! k) as [p|] eqn:Hp; cycle 1.
    { destruct (setupEntry_throws panels b k s Hp) as (s' & Heq & _).
      by rewrite Heq in Hn. }
    assert (b ≠ p) as Hbp.
    { intros ->. specialize (Htabs p Hbin).
      specialize (Hpanels p (list_elem_of_lookup_2 _ _ _ Hp)). congruence. }
    destruct (setupEntry_listenersOf panels b k p s Hp Hbp)
      as (entry & Heq & Hst' & Hb & Hclick & Hkeyup & Hls).
    { eapply slotOf_is_Some. by apply Htabs. }
    pose proof (setupEntry_slotOf panels b k s) as Hslots.
    rewrite Heq in Hn |- *. simpl in Hn.
    set (s1 := snd (setupEntry panels b k s)) in *.
    change (length (b :: bs)) with (S (length bs)).
    replace (k + S (length bs)) with (S k + length bs) by lia.
    apply IH; [| | | |done].
    + intros j b' Hj. replace (S k + j) with (k + S j) by lia. by apply Hbs.
    + intros b' Hb'. rewrite Hslots. by apply Htabs.
    + intros p' Hp'. rewrite Hslots. by apply Hpanels.
    + destruct HW as (st & Hst & Hbuttons & Hown & Hbodies).
      rewrite Hst in Hst'. simpl in Hst'.
      assert (length st = k) as Hlen.
      { rewrite <- (length_map button), Hbuttons, length_take.
        apply lookup_lt_Some in Hk. lia. }
      assert (b ∉ map button st) as Hfresh.
      { rewrite Hbuttons. intros Hin.
        apply list_elem_of_lookup in Hin as [j Hj].
        apply lookup_take_Some in Hj as [Hj Hlt].
        assert (j = k); [|lia]. by eapply (NoDup_lookup tabs). }
      exists (st ++ [entry])%list. split; [done|]. split; [|split].
      * rewrite map_app. simpl. rewrite Hb, Hbuttons. symmetry. by apply take_S_r.
      * intros ty b' Hty. rewrite (Hls ty b' Hty), (Hown ty b' Hty), ownListeners_app.
        cbv zeta. destruct (decide (b = b')) as [<-|Hne].
        -- rewrite ownListeners_not_in by done. simpl.
           unfold ownListeners. simpl. by rewrite Hb, bool_decide_eq_true_2.
        -- unfold ownListeners at 3. simpl.
           rewrite Hb, bool_decide_eq_false_2 by done. by rewrite app_nil_r.
      * intros j e Hj. apply lookup_app_Some in Hj as [Hj|[Hge Hj]].
        -- by apply Hbodies.
        -- apply list_lookup_singleton_Some in Hj as [Hj0 <-].
           assert (j = k) as -> by lia. done.
Qed.

Lemma Wired_set_selectedIndex v s : Wired s → Wired (set_selectedIndex v s).
Proof.
  intros (Hnd & Hown & Hbodies).
  destruct (set_selectedIndex_frame v s) as (Hst & _).
  unfold Wired. rewrite Hst. split; [done|]. split; [|done].
  intros ty b Hty. rewrite <- (Hown ty b Hty).
  apply listenersOf_sameListeners.
  exact (updateSelected_sameListeners (set___selectedIndex v (set_firstUpdate false s))).
Qed.

Lemma handleSlotChange_Wired s :
  Wired s → NoDup (descendants s) →
  fst (handleSlotChange s) = Normal tt →
  Wired (snd (handleSlotChange s)).
Proof.
  intros (Hnd & Hown & Hbodies) Hndc. rewrite handleSlotChange_unfold.
  destruct (cleanStore_run s) as (sA & HcleanEq & HFA & HcA & _).
  assert (NoDup (descendants sA)) as HndA.
  { by destruct (sameSlots_of_Frame _ _ _ HFA HcA) as [-> _]. }
  assert (∀ ty b, ty = "click" ∨ ty = "keyup" → listenersOf sA ty b = []) as Hclean.
  { intros ty b Hty. replace sA with (snd (__cleanStore s)) by (by rewrite HcleanEq).
    unfold __cleanStore. destruct (store s) as [st|] eqn:Hst.
    - by apply cleanLoop_unwires.
    - simpl. by rewrite Hown. }
  rewrite HcleanEq.
  pose proof (setupLoop_wires (querySlot sA "panel") (querySlot sA "tab")) as Hloop.
  specialize (Hloop (querySlot_NoDup sA "tab" HndA)
                (querySlot sA "tab") 0 (setupStart sA)).
  rewrite <- setupStore_unfold in Hloop.
  destruct (__setupStore sA) as [[[]|err] sB]; [|done].
  intros _. simpl in Hloop |- *.
  destruct Hloop as (st & Hst & Hbuttons & Hown' & Hbodies'); [done | | | | done |].
  { intros b [_ Hb]%querySlot_slotOf. unfold setupStart. cbv zeta. by destruct (decide _). }
  { intros p [_ Hp]%querySlot_slotOf. unfold setupStart. cbv zeta. by destruct (decide _). }
  { exists []. split; [|split; [done|split]].
    - unfold setupStart. cbv zeta. by destruct (decide _).
    - intros ty b Hty. change (ownListeners ty [] b) with (@nil Listener).
      rewrite <- (Hclean ty b Hty).
      unfold setupStart. cbv zeta. by destruct (decide _).
    - by intros j e ?. }
  rewrite take_ge in Hbuttons by done.
  destruct (updateSelected_frame sB) as (HstC & _).
  unfold Wired. rewrite HstC, Hst. simpl. split; [|split; [|done]].
  - rewrite Hbuttons. by apply querySlot_NoDup.
  - intros ty b Hty. rewrite <- (Hown' ty b Hty).
    apply listenersOf_sameListeners, updateSelected_sameListeners.
Qed.

Lemma reachable_Wired s : reachable s → Wired s.
Proof.
  induction 1 as [h cs Hnd Hfresh Hlen | v s _ IH | ty k b s _ IH | cs s Hreach IH Hnd Hlen].
  - unfold initialize, exec. apply handleSlotChange_Wired; [|done|].
    + split; [apply NoDup_nil_2|]. split; [|by intros j e ?].
      intros ty b _. rewrite listenersOf_typeList.
      change (heap (firstUpdated (constructor (created h cs)))) with h.
      destruct (h !! b) as [e|] eqn:He; [|done]. simpl.
      unfold typeList. by rewrite (Hfresh b e He).
    + destruct (handleSlotChange_run (firstUpdated (constructor (created h cs))))
        as (s' & st & -> & _); [done | by apply fresh_ListenersOK | done | done].
  - by apply Wired_set_selectedIndex.
  - unfold deliver. apply runListeners_preserves; [|done].
    intros v s'. apply Wired_set_selectedIndex.
  - unfold slotchange, exec. apply handleSlotChange_Wired; [|done|].
    + destruct IH as (H1 & H2 & H3). split; [done|]. split; [done|done].
    + destruct (handleSlotChange_run (set_children cs s))
        as (s' & st & -> & _); [done | | done | done].
      exact (inv_listeners s (reachable_Inv s Hreach)).
Qed.

Lemma filter_button_unique st j e :
  NoDup (map button st) → st !! j = Some e →
  List.filter (λ e', bool_decide (button e' = button e)) st = [e].
Proof.
  revert j. induction st as [|x st IH]; intros j Hnd Hj; [done|].
  simpl in Hnd. apply NoDup_cons in Hnd as [Hx Hnd]. simpl.
  destruct j as [|j]; simpl in Hj.
  - injection Hj as ->. rewrite bool_decide_eq_true_2 by done. f_equal.
    apply filter_all_false. intros e' He'. apply bool_decide_eq_false_2.
    intros Heq. apply Hx. rewrite <- Heq. apply list_elem_of_fmap. eauto.
  - rewrite bool_decide_eq_false_2; [by eapply IH|].
    intros Heq. apply Hx. rewrite Heq. apply list_elem_of_fmap.
    exists e. split; [done|]. by eapply list_elem_of_lookup_2.
Qed.

(** However often the registry has been rebuilt, a click on the trigger of
    the [j]-th entry commits the index [j], once: the state afterwards is
    that of one call of the setter.  A keyup on the trigger runs the key
    handler once: for a selected index within the registry, the state
    afterwards is that of one commit of the index the policy gives for the
    key, and unchanged for any other key. *)
Theorem trigger_events_commit_once (s : State) (st : list Entry) (j : nat) (e : Entry) :
  reachable s → store s = Some st → st !! j = Some e →
  (∀ k, deliver "click" k (button e) s =
        (mkKeyEvent k false, set_selectedIndex (Z.of_nat j) s)) ∧
  ((0 ≤ selectedIndex s < Z.of_nat (length st))%Z →
   ∀ k, snd (deliver "keyup" k (button e) s) =
        match keyTarget (Z.of_nat (length st)) (selectedIndex s) k with
        | Some t => set_selectedIndex t s
        | None => s
        end).
Proof.
  intros Hreach Hst Hj.
  destruct (reachable_Wired s Hreach) as (Hnd & Hown & Hbodies).
  rewrite Hst in Hnd, Hown, Hbodies. simpl in Hnd, Hown, Hbodies.
  destruct (Hbodies j e Hj) as [Hclick Hkeyup].
  split.
  - intros k. unfold deliver. rewrite (Hown "click") by (by left).
    unfold ownListeners. rewrite (filter_button_unique st j e Hnd Hj). simpl.
    unfold runListener, handlerOf. simpl. by rewrite Hclick.
  - intros Hi k. unfold deliver. rewrite (Hown "keyup") by (by right).
    unfold ownListeners. rewrite (filter_button_unique st j e Hnd Hj). simpl.
    unfold runListener, handlerOf. simpl. rewrite Hkeyup.
    destruct (handleButtonKeydown_policy s st k false Hst Hi) as [e' ->]. done.
Qed.

Lemma trigger_events_commit_once_witness :
  deliver "click" "" 4 three_tabs = (mkKeyEvent "" false, set_selectedIndex 2 three_tabs) ∧
  snd (deliver "keyup" "End" 0 three_tabs) =
    set_selectedIndex (Z.of_nat (length three_entries) - 1) three_tabs.
Proof.
  split.
  - exact (proj1 (trigger_events_commit_once three_tabs three_entries 2
             (mkEntry "2" 4 (Some 5) (mkFn 6 (ClickHandler 2)) (mkFn 7 KeydownHandler))
             three_tabs_reachable three_tabs_store eq_refl) "").
  - assert (0 ≤ selectedIndex three_tabs < Z.of_nat (length three_entries))%Z as Hi.
    { rewrite three_tabs_selectedIndex. simpl. lia. }
    pose proof (proj2 (trigger_events_commit_once three_tabs three_entries 0
             (mkEntry "0" 0 (Some 1) (mkFn 0 (ClickHandler 0)) (mkFn 1 KeydownHandler))
             three_tabs_reachable three_tabs_store eq_refl) Hi "End") as H.
    rewrite keyTarget_End in H. exact H.
Defined.

(** Two rebuilds later the click still commits once. *)
Example click_after_two_rebuilds :
  let s := slotchange [0; 1; 2; 3; 4; 5] (slotchange [0; 1; 2; 3; 4; 5] three_tabs) in
  dispatched (snd (deliver "click" "" 2 s)) = ["selected-changed"; "selected-changed"] ∧
  selectedIndex (snd (deliver "click" "" 2 s)) = 1%Z.
Proof. vm_compute. repeat split. Qed.

(** ** ARIA linkage of the pairs *)

Lemma attrOf_setAttribute n v id s b a :
  is_Some (heap s !! id) →
  attrOf (onElement (setAttribute n v) id s) b a =
  if decide (id = b ∧ a = n) then Some v else attrOf s b a.
Proof.
  intros [e He]. unfold attrOf. rewrite heap_onElement.
  destruct (decide (id = b)) as [->|Hne].
  - rewrite He. simpl. destruct (decide (a = n)) as [->|Ha].
    + rewrite decide_True by done. apply lookup_insert_eq.
    + rewrite decide_False by (by intros [_ ?]). by apply lookup_insert_ne.
  - by rewrite decide_False by (by intros [? _]).
Qed.

Lemma attrOf_removeAttribute n id s b a :
  a ≠ n →
  attrOf (onElement (removeAttribute n) id s) b a = attrOf s b a.
Proof.
  intros Ha. unfold attrOf. rewrite heap_onElement. case_decide; [|done].
  destruct (heap s !! b) as [e|]; [|done]. simpl. by apply lookup_delete_ne.
Qed.

Lemma attrOf_sameAttrs f id s b a :
  (∀ e, attrs (f e) = attrs e) →
  attrOf (onElement f id s) b a = attrOf s b a.
Proof.
  intros Hf. unfold attrOf. rewrite heap_onElement. case_decide; [|done].
  destruct (heap s !! b) as [e|]; [|done]. simpl. by rewrite Hf.
Qed.

Lemma addEventListener_attrs ty f e : attrs (addEventListener ty f e) = attrs e.
Proof. unfold addEventListener. by destruct (existsb _ _). Qed.

Lemma attrOf_add ty f id s b a :
  attrOf (onElement (addEventListener ty f) id s) b a = attrOf s b a.
Proof. apply attrOf_sameAttrs, addEventListener_attrs. Qed.

Lemma attrOf_set_nextFn n s b a : attrOf (set_nextFn n s) b a = attrOf s b a.
Proof. done. Qed.

Lemma attrOf_set_nextUid n s b a : attrOf (set_nextUid n s) b a = attrOf s b a.
Proof. done. Qed.

Lemma attrOf_push entry s b a : attrOf (push entry s) b a = attrOf s b a.
Proof. done. Qed.

(** The trigger and the panel of an entry name each other. *)
Definition linked (s : State) (e : Entry) : Prop :=
  ∃ p, panel e = Some p ∧
       attrOf s (button e) "id" = Some ("button-" ++ uid e) ∧
       attrOf s (button e) "role" = Some "tab" ∧
       attrOf s (button e) "aria-controls" = Some ("panel-" ++ uid e) ∧
       attrOf s p "id" = Some ("panel-" ++ uid e) ∧
       attrOf s p "role" = Some "tabpanel" ∧
       attrOf s p "aria-labelledby" = Some ("button-" ++ uid e).

Ltac decide_pairs :=
  repeat first
    [ rewrite decide_True by (split; reflexivity)
    | rewrite decide_False by (intros [? ?]; congruence) ].

Ltac attr_chain :=
  repeat first
    [ rewrite attrOf_push
    | rewrite attrOf_set_nextFn
    | rewrite attrOf_set_nextUid
    | rewrite attrOf_add
    | rewrite attrOf_removeAttribute by discriminate
    | rewrite attrOf_setAttribute by still_there ];
  decide_pairs.

Lemma setupEntry_linked panels b i p s :
  panels !! i = Some p → b ≠ p →
  is_Some (heap s !! b) → is_Some (heap s !! p) →
  ∃ entry,
    store (snd (setupEntry panels b i s)) = Some (default [] (store s) ++ [entry])%list ∧
    button entry = b ∧ panel entry = Some p ∧
    linked (snd (setupEntry panels b i s)) entry.
Proof.
  intros Hp Hbp Hb Hpp. unfold setupEntry. rewrite Hp.
  unfold mbind, M_bind, bind, uuid, __createButtonClickHandler, newFn,
    setupPanel, setupButton, modify. simpl.
  eexists. split; [reflexivity|]. split; [reflexivity|]. split; [reflexivity|].
  exists p. simpl. split; [reflexivity|].
  unfold deselectButton, deselectPanel. cbv zeta.
  assert (p ≠ b) as Hpb by congruence.
  repeat split; attr_chain; reflexivity.
Qed.

Lemma setupEntry_local panels b i s b' :
  b' ≠ b → (∀ p, panels !! i = Some p → b' ≠ p) →
  heap (snd (setupEntry panels b i s)) !! b' = heap s !! b'.
Proof.
  intros Hb Hp'. destruct (panels !! i) as [p|] eqn:Hp.
  - destruct (setupEntry_run panels b i p s Hp)
      as (X & f & entry & -> & _ & _ & Hf & HX & _).
    simpl.
    assert (Frame [b; p] s
              (push entry (deselectButton b
                 (deselectPanel p (onElement (addEventListener "keydown" f) b X))))) as HF.
    { eapply Frame_trans; [exact HX|]. eapply Frame_trans; [|apply Frame_push].
      destruct f as [n body]. simpl in Hf. subst body. frame. }
    destruct HF as (_ & _ & Hlocal). apply Hlocal.
    intros [->|Hin]%elem_of_cons; [done|].
    apply list_elem_of_singleton in Hin as ->. by apply (Hp' p).
  - destruct (setupEntry_throws panels b i s Hp) as (s' & -> & Hh & _).
    simpl. by rewrite Hh.
Qed.

Lemma linked_heap s s' e :
  heap s' !! button e = heap s !! button e →
  (∀ p, panel e = Some p → heap s' !! p = heap s !! p) →
  linked s e → linked s' e.
Proof.
  intros Hb Hp (p & Hpe & H). exists p. split; [done|].
  unfold attrOf in *. by rewrite Hb, (Hp p Hpe).
Qed.

(** The first [k] tabs are registered, paired and linked. *)
Definition LinkedUpTo (tabs panels : list nat) (k : nat) (s : State) : Prop :=
  ∃ st, store s = Some st ∧ length st = k ∧
        ∀ j e, st !! j = Some e →
               Some (button e) = tabs !! j ∧ panel e = panels !! j ∧ linked s e.

Lemma setupLoop_linked panels tabs :
  NoDup tabs → NoDup panels →
  ∀ bs k s,
    (∀ j b, bs !! j = Some b → tabs !! (k + j) = Some b) →
    (∀ b, b ∈ tabs → slotOf s b = Some "tab") →
    (∀ p, p ∈ panels → slotOf s p = Some "panel") →
    LinkedUpTo tabs panels k s →
    fst (forEach (setupEntry panels) bs k s) = Normal tt →
    LinkedUpTo tabs panels (k + length bs) (snd (forEach (setupEntry panels) bs k s)).
Proof.
  intros Hndt Hndp. induction bs as [|b bs IH]; intros k s Hbs Htabs Hpanels HL Hn.
  - simpl. by rewrite Nat.add_0_r.
  - rewrite forEach_cons in Hn |- *.
    assert (tabs !! k = Some b) as Hk.
    { rewrite <- (Nat.add_0_r k). by apply Hbs. }
    assert (b ∈ tabs) as Hbin by (by eapply list_elem_of_lookup_2).
    destruct (panels !! k) as [p|] eqn:Hp; cycle 1.
    { destruct (setupEntry_throws panels b k s Hp) as (s' & Heq & _).
      by rewrite Heq in Hn. }
    assert (p ∈ panels) as Hpin by (by eapply list_elem_of_lookup_2).
    assert (∀ x y, x ∈ tabs → y ∈ panels → x ≠ y) as Hdisj.
    { intros x y Hx Hy ->. specialize (Htabs y Hx). specialize (Hpanels y Hy). congruence. }
    destruct (setupEntry_linked panels b k p s Hp)
      as (entry & Hst' & Hb & Hpe & Hlinked).
    { by apply Hdisj. }
    { eapply slotOf_is_Some. by apply Htabs. }
    { eapply slotOf_is_Some. by apply Hpanels. }
    pose proof (setupEntry_slotOf panels b k s) as Hslots.
    pose proof (setupEntry_local panels b k s) as Hlocal.
    destruct (setupEntry panels b k s) as [[[]|err] s1] eqn:Heq; [|done].
    simpl in *.
    change (k + S (length bs)) with (k + S (length bs)).
    replace (k + S (length bs)) with (S k + length bs) by lia.
    apply IH; [| | | |done].
    + intros j b' Hj. replace (S k + j) with (k + S j) by lia. by apply Hbs.
    + intros b' Hb'. rewrite Hslots. by apply Htabs.
    + intros p' Hp'. rewrite Hslots. by apply Hpanels.
    + destruct HL as (st & Hst & Hlen & Hold).
      rewrite Hst in Hst'. simpl in Hst'.
      exists (st ++ [entry])%list. split; [done|]. split.
      { rewrite length_app. simpl. lia. }
      intros j e Hj. apply lookup_app_Some in Hj as [Hj|[Hge Hj]].
      * destruct (Hold j e Hj) as (Hbj & Hpj & Hlj).
        split; [done|]. split; [done|].
        assert (j < k) as Hjk by (apply lookup_lt_Some in Hj; lia).
        assert (button e ∈ tabs) as Hbe by (by eapply list_elem_of_lookup_2).
        apply (linked_heap s); [| |done].
        -- apply Hlocal.
           ++ intros Heqb. assert (j = k); [|lia].
              eapply (NoDup_lookup tabs); [done | by symmetry | by rewrite Heqb].
           ++ intros p0 Hp0. rewrite Hp in Hp0. injection Hp0 as <-. by apply Hdisj.
        -- intros pj Hpje. rewrite Hpje in Hpj.
           assert (pj ∈ panels) as Hpjin by (by eapply list_elem_of_lookup_2).
           apply Hlocal.
           ++ intros ->. by apply (Hdisj b b).
           ++ intros p0 Hp0 ->. rewrite Hp in Hp0. injection Hp0 as <-.
              assert (j = k); [|lia]. by eapply (NoDup_lookup panels).
      * apply list_lookup_singleton_Some in Hj as [Hj0 <-].
        assert (j = k) as -> by lia. rewrite Hb, Hpe. done.
Qed.

Lemma attrOf_setAttribute_ne n v id s b a :
  a ≠ n → attrOf (onElement (setAttribute n v) id s) b a = attrOf s b a.
Proof.
  intros Ha. unfold attrOf. rewrite heap_onElement. case_decide; [|done].
  destruct (heap s !! b) as [e|]; [|done]. simpl. by apply lookup_insert_ne.
Qed.

(** The synchronizer writes [selected], [aria-selected] and [tabindex] only. *)
Lemma updateSelected_other_attrs s b a :
  a ≠ "selected" → a ≠ "aria-selected" → a ≠ "tabindex" →
  attrOf (__updateSelected s) b a = attrOf s b a.
Proof.
  intros H1 H2 H3.
  assert (∀ id x, attrOf (deselectButton id x) b a = attrOf x b a) as Hdb.
  { intros id x. unfold deselectButton. cbv zeta.
    by rewrite !attrOf_setAttribute_ne, attrOf_removeAttribute. }
  assert (∀ id fu x, attrOf (selectButton id fu x) b a = attrOf x b a) as Hsb.
  { intros id fu x. unfold selectButton. cbv zeta.
    rewrite !attrOf_setAttribute_ne by done. by destruct fu. }
  assert (∀ id x, attrOf (deselectPanel id x) b a = attrOf x b a) as Hdp.
  { intros id x. by apply attrOf_removeAttribute. }
  assert (∀ id x, attrOf (selectPanel id x) b a = attrOf x b a) as Hsp.
  { intros id x. by apply attrOf_setAttribute_ne. }
  unfold __updateSelected. destruct (store s ≫= _) as [entry|]; [|done].
  cbv zeta.
  generalize (List.find (elementHas s "tab" "selected") (children s)) as fb.
  generalize (List.find (elementHas s "panel" "selected") (children s)) as fp.
  intros fp fb.
  destruct (panel entry); rewrite ?Hsp, Hsb; destruct fp; rewrite ?Hdp;
    destruct fb; by rewrite ?Hdb.
Qed.

Definition Linked (s : State) : Prop :=
  ∀ e, e ∈ default [] (store s) → linked s e.

Lemma linked_updateSelected s e : linked s e → linked (__updateSelected s) e.
Proof.
  intros (p & Hp & H). exists p. split; [done|].
  by rewrite !updateSelected_other_attrs.
Qed.

Lemma Linked_set_selectedIndex v s : Linked s → Linked (set_selectedIndex v s).
Proof.
  intros HL e He. destruct (set_selectedIndex_frame v s) as (Hst & _).
  rewrite Hst in He.
  exact (linked_updateSelected (set___selectedIndex v (set_firstUpdate false s)) e
           (HL e He)).
Qed.

Lemma handleSlotChange_Linked s :
  NoDup (descendants s) →
  fst (handleSlotChange s) = Normal tt →
  Linked (snd (handleSlotChange s)).
Proof.
  intros Hndc. rewrite handleSlotChange_unfold.
  destruct (cleanStore_run s) as (sA & HcleanEq & HFA & HcA & _).
  rewrite HcleanEq.
  assert (NoDup (descendants sA)) as HndA.
  { by destruct (sameSlots_of_Frame _ _ _ HFA HcA) as [-> _]. }
  pose proof (setupLoop_linked (querySlot sA "panel") (querySlot sA "tab")
                (querySlot_NoDup sA "tab" HndA) (querySlot_NoDup sA "panel" HndA)
                (querySlot sA "tab") 0 (setupStart sA)) as Hloop.
  rewrite <- setupStore_unfold in Hloop.
  destruct (__setupStore sA) as [[[]|err] sB]; [|done].
  intros _. simpl in Hloop |- *.
  destruct Hloop as (st & Hst & _ & Hall); [done | | | | done |].
  { intros b [_ Hb]%querySlot_slotOf. unfold setupStart. cbv zeta. by destruct (decide _). }
  { intros p [_ Hp]%querySlot_slotOf. unfold setupStart. cbv zeta. by destruct (decide _). }
  { exists []. split; [|split; [done|]].
    - unfold setupStart. cbv zeta. by destruct (decide _).
    - by intros j e ?. }
  intros e He. destruct (updateSelected_frame sB) as (HstC & _).
  rewrite HstC, Hst in He. simpl in He.
  apply list_elem_of_lookup in He as [j Hj].
  apply linked_updateSelected. by destruct (Hall j e Hj) as (_ & _ & ?).
Qed.

Lemma reachable_Linked s : reachable s → Linked s.
Proof.
  induction 1 as [h cs Hnd Hfresh Hlen | v s _ IH | ty k b s _ IH | cs s Hreach IH Hnd Hlen].
  - unfold initialize, exec. apply handleSlotChange_Linked; [done|].
    destruct (handleSlotChange_run (firstUpdated (constructor (created h cs))))
      as (s' & st & -> & _); [done | by apply fresh_ListenersOK | done | done].
  - by apply Linked_set_selectedIndex.
  - unfold deliver. apply runListeners_preserves; [|done].
    intros v s'. apply Linked_set_selectedIndex.
  - unfold slotchange, exec. apply handleSlotChange_Linked; [done|].
    destruct (handleSlotChange_run (set_children cs s))
      as (s' & st & -> & _); [done | | done | done].
    exact (inv_listeners s (reachable_Inv s Hreach)).
Qed.

(** In every reachable state each registered entry has a panel, and trigger
    and panel name each other: the trigger has role [tab], the panel role
    [tabpanel], the trigger's [aria-controls] is the panel's [id] and the
    panel's [aria-labelledby] is the trigger's [id]; commits and key events
    never disturb this. *)
Theorem aria_linkage (s : State) (st : list Entry) (e : Entry) :
  reachable s → store s = Some st → e ∈ st →
  ∃ p, panel e = Some p ∧
       attrOf s (button e) "role" = Some "tab" ∧
       attrOf s p "role" = Some "tabpanel" ∧
       attrOf s (button e) "id" = Some ("button-" ++ uid e) ∧
       attrOf s p "id" = Some ("panel-" ++ uid e) ∧
       attrOf s (button e) "aria-controls" = attrOf s p "id" ∧
       attrOf s p "aria-labelledby" = attrOf s (button e) "id".
Proof.
  intros Hreach Hst He.
  destruct (reachable_Linked s Hreach e) as (p & Hp & H1 & H2 & H3 & H4 & H5 & H6).
  { by rewrite Hst. }
  exists p. rewrite H1, H2, H3, H4, H5, H6. done.
Qed.

Lemma aria_linkage_witness :
  ∃ p, Some 3 = Some p ∧
       attrOf three_tabs 2 "role" = Some "tab" ∧
       attrOf three_tabs p "role" = Some "tabpanel" ∧
       attrOf three_tabs 2 "id" = Some ("button-" ++ "1") ∧
       attrOf three_tabs p "id" = Some ("panel-" ++ "1") ∧
       attrOf three_tabs 2 "aria-controls" = attrOf three_tabs p "id" ∧
       attrOf three_tabs p "aria-labelledby" = attrOf three_tabs 2 "id".
Proof.
  apply (aria_linkage three_tabs three_entries
           (mkEntry "1" 2 (Some 3) (mkFn 3 (ClickHandler 1)) (mkFn 4 KeydownHandler))
           three_tabs_reachable three_tabs_store).
  right. by left.
Defined.

(** ** The state after initialization *)

(** After the constructor, [firstUpdated] and the first [slotchange] of a tab
    group whose tabs all have a panel: the committed index is 0, the only
    event dispatched is the constructor's, nothing has been focused, there is
    one entry per tab, and - unless there is no tab - the first tab is the
    one marked as selected. *)
Theorem initial_selection (h : gmap nat Element) (cs : list nat) :
  NoDup (descendants (created h cs)) →
  map_Forall (λ _ e, listeners e = []) h →
  (length (querySlot (created h cs) "tab")
   ≤ length (querySlot (created h cs) "panel"))%nat →
  selectedIndex (initialize h cs) = 0%Z ∧
  dispatched (initialize h cs) = ["selected-changed"] ∧
  focused (initialize h cs) = None ∧
  ∃ st, store (initialize h cs) = Some st ∧
        map button st = querySlot (created h cs) "tab" ∧
        ∀ j e, st !! j = Some e →
          markedAt (if decide (j = 0) then Selected else Deselected)
                   (initialize h cs) (button e).
Proof.
  intros Hnd Hfresh Hlen.
  set (s0 := firstUpdated (constructor (created h cs))).
  destruct (handleSlotChange_run s0 Hnd (fresh_ListenersOK h cs Hfresh) Hlen)
    as (s' & st & Heq & HInv & _ & Hi & Hst & Hlenst & HM & Hslots).
  destruct (handleSlotChange_first_update None ["selected-changed"] s0)
    as (_ & Hf & Hd); [done|].
  assert (initialize h cs = s') as Hinit.
  { unfold initialize, exec. fold s0. by rewrite Heq. }
  rewrite Heq in Hf, Hd. simpl in Hf, Hd. rewrite Hinit.
  split; [by rewrite Hi|]. split; [done|]. split; [done|].
  exists st. split; [done|].
  destruct (inv_registry _ HInv) as (st' & Hst' & Hbuttons & _).
  assert (st' = st) as -> by congruence.
  split.
  { rewrite Hbuttons. exact (sameSlots_querySlot s0 s' "tab" Hslots). }
  intros j e Hj.
  destruct (Inv_marks_by_index s' st HInv HM Hst) as [_ Hmarks].
  { rewrite Hi. simpl. apply lookup_lt_Some in Hj. lia. }
  specialize (Hmarks j e Hj). rewrite Hi in Hmarks.
  change (selectedIndex s0) with 0%Z in Hmarks.
  destruct (decide (j = 0)) as [->|Hne].
  - by rewrite decide_True in Hmarks.
  - rewrite decide_False in Hmarks; [done | lia].
Qed.

Lemma initial_selection_witness :
  selectedIndex three_tabs = 0%Z ∧
  dispatched three_tabs = ["selected-changed"] ∧
  focused three_tabs = None.
Proof.
  destruct (initial_selection three_pairs [0; 1; 2; 3; 4; 5]) as (H1 & H2 & H3 & _).
  - apply (bool_decide_unpack _). by vm_compute.
  - apply (bool_decide_unpack _). by vm_compute.
  - vm_compute. lia.
  - exact (conj H1 (conj H2 H3)).
Defined.

(** ** Keys on an empty registry *)

(** With no entry registered, no key changes an element or the focus; the
    handler still commits: Home commits 0 and End commits [-1], each with a
    notification. *)
Theorem keys_on_empty_registry (s : State) :
  store s = Some [] →
  (∀ k, heap (press k s) = heap s ∧ focused (press k s) = focused s ∧
        store (press k s) = Some []) ∧
  selectedIndex (press "End" s) = (-1)%Z ∧
  selectedIndex (press "Home" s) = 0%Z ∧
  dispatched (press "End" s) = (dispatched s ++ ["selected-changed"])%list ∧
  dispatched (press "Home" s) = (dispatched s ++ ["selected-changed"])%list.
Proof.
  intros Hst.
  assert (∀ t, heap (set_selectedIndex t s) = heap s ∧
               focused (set_selectedIndex t s) = focused s ∧
               store (set_selectedIndex t s) = Some []) as Hset.
  { intros t.
    assert (__updateSelected (set___selectedIndex t (set_firstUpdate false s))
            = set___selectedIndex t (set_firstUpdate false s)) as Heq.
    { apply updateSelected_out_of_range. simpl. rewrite Hst. simpl.
      unfold at_index. by case_decide. }
    unfold set_selectedIndex. cbv zeta. by rewrite Heq. }
  split.
  - intros k. unfold press, exec.
    destruct (handleButtonKeydown_state (mkKeyEvent k false) s) as [-> | [t ->]];
      [done | apply Hset].
  - assert (press "End" s = set_selectedIndex (-1) s) as ->.
    { unfold press, exec, __handleButtonKeydown, mbind, M_bind, bind, gets,
        _pairCount, modify, mret, M_ret, ret. simpl. by rewrite Hst. }
    assert (press "Home" s = set_selectedIndex 0 s) as -> by done.
    destruct (set_selectedIndex_frame (-1) s) as (_ & _ & -> & ->).
    by destruct (set_selectedIndex_frame 0 s) as (_ & _ & -> & ->).
Qed.

Definition no_tabs : State := initialize ∅ [].

Lemma keys_on_empty_registry_witness :
  selectedIndex (press "End" no_tabs) = (-1)%Z ∧
  heap (press "End" no_tabs) = heap no_tabs ∧
  dispatched (press "Home" no_tabs) = (dispatched no_tabs ++ ["selected-changed"])%list.
Proof.
  destruct (keys_on_empty_registry no_tabs eq_refl) as (Hall & Hend & _ & _ & Hhome).
  exact (conj Hend (conj (proj1 (Hall "End")) Hhome)).
Defined.

(** ** Teardown *)

Definition wiringAttributes : list string := ["id"; "role"; "aria-controls"].

Lemma attrOf_removeAttribute_full n id s b a :
  attrOf (onElement (removeAttribute n) id s) b a =
  if decide (id = b ∧ a = n) then None else attrOf s b a.
Proof.
  unfold attrOf. rewrite heap_onElement.
  destruct (decide (id = b)) as [->|Hne].
  - destruct (heap s !! b) as [e|]; simpl.
    + destruct (decide (a = n)) as [->|Ha].
      * rewrite decide_True by done. apply lookup_delete_eq.
      * rewrite decide_False by (by intros [_ ?]). by apply lookup_delete_ne.
    + by case_decide.
  - by rewrite decide_False by (by intros [? _]).
Qed.

Lemma attrOf_remove_listener ty f id s b a :
  attrOf (onElement (removeEventListener ty f) id s) b a = attrOf s b a.
Proof. by apply attrOf_sameAttrs. Qed.

Lemma wiringAttributes_elem a :
  a ∈ wiringAttributes ↔ a = "id" ∨ a = "role" ∨ a = "aria-controls".
Proof.
  unfold wiringAttributes. rewrite !elem_of_cons, elem_of_nil. tauto.
Qed.

Lemma cleanButton_attrOf el ch kh s b a :
  attrOf (snd (cleanButton el ch kh s)) b a =
  if decide (el = b ∧ a ∈ wiringAttributes) then None else attrOf s b a.
Proof.
  unfold cleanButton, mbind, M_bind, bind, modify, newFn. simpl.
  rewrite !attrOf_remove_listener, attrOf_set_nextFn, !attrOf_remove_listener.
  rewrite !attrOf_removeAttribute_full.
  destruct (decide (el = b ∧ a ∈ wiringAttributes)) as [[-> Ha]|Hn].
  - apply wiringAttributes_elem in Ha as [-> | [-> | ->]];
      repeat case_decide; try done; exfalso; intuition congruence.
  - repeat case_decide; try done; exfalso; apply Hn;
      (split; [tauto|]); apply wiringAttributes_elem; tauto.
Qed.

Lemma cleanLoop_attrOf st :
  ∀ k s b a,
    attrOf (snd (forEach cleanEntry st k s)) b a =
    if decide (b ∈ map button st ∧ a ∈ wiringAttributes) then None else attrOf s b a.
Proof.
  induction st as [|e st IH]; intros k s b a.
  - case_decide as H; [|done]. destruct H as [H _]. by apply elem_of_nil in H.
  - rewrite forEach_cons. unfold cleanEntry at 1.
    destruct (cleanButton_run (button e) (clickHandler e) (keydownHandler e) s)
      as (s1 & Heq & _).
    pose proof (cleanButton_attrOf (button e) (clickHandler e) (keydownHandler e) s b a)
      as Hstep.
    rewrite Heq in Hstep |- *. cbn [snd] in Hstep. rewrite IH, Hstep.
    change (map button (e :: st)) with (button e :: map button st).
    pose proof (elem_of_cons (map button st) b (button e)) as Hc.
    repeat case_decide; try done; exfalso; rewrite Hc in *;
      repeat match goal with H : _ ∧ _ |- _ => destruct H end; subst;
      intuition auto.
Qed.

(** The teardown of a reachable tab group does not throw.  Afterwards no
    element carries a click or keyup listener, and the registered triggers
    have lost [id], [role] and [aria-controls].  Every other attribute of
    every element ([aria-selected] and [tabindex] among them), every
    attribute of every element that is not a registered trigger - of the
    panels in particular -, the registry and the committed index are as
    before. *)
Theorem teardown_detaches (s : State) (st : list Entry) :
  reachable s → store s = Some st →
  fst (__cleanStore s) = Normal tt ∧
  (∀ b, listenersOf (exec __cleanStore s) "click" b = [] ∧
        listenersOf (exec __cleanStore s) "keyup" b = []) ∧
  (∀ e a, e ∈ st → a ∈ wiringAttributes →
          attrOf (exec __cleanStore s) (button e) a = None) ∧
  (∀ b a, a ∉ wiringAttributes →
          attrOf (exec __cleanStore s) b a = attrOf s b a) ∧
  (∀ b a, b ∉ map button st →
          attrOf (exec __cleanStore s) b a = attrOf s b a) ∧
  (∀ e p a, e ∈ st → panel e = Some p →
            attrOf (exec __cleanStore s) p a = attrOf s p a) ∧
  store (exec __cleanStore s) = Some st ∧
  selectedIndex (exec __cleanStore s) = selectedIndex s.
Proof.
  intros Hreach Hst.
  destruct (reachable_Wired s Hreach) as (Hnd & Hown & _).
  rewrite Hst in Hnd, Hown. simpl in Hnd, Hown.
  destruct (cleanStore_run s) as (s' & Heq & _ & _ & Hi & _).
  unfold exec. split; [by rewrite Heq|].
  assert (snd (__cleanStore s) = snd (forEach cleanEntry st 0 s)) as Hloop.
  { unfold __cleanStore. by rewrite Hst. }
  assert (∀ b a, b ∉ map button st →
            attrOf (snd (__cleanStore s)) b a = attrOf s b a) as Hothers.
  { intros b a Hb. rewrite Hloop, cleanLoop_attrOf, decide_False; [done|].
    by intros [? _]. }
  split; [|split; [|split; [|split; [|split; [|split]]]]].
  - intros b. rewrite Hloop.
    split; apply cleanLoop_unwires; auto.
  - intros e a He Ha. rewrite Hloop, cleanLoop_attrOf, decide_True; [done|].
    split; [|done]. apply list_elem_of_fmap. eauto.
  - intros b a Ha. rewrite Hloop, cleanLoop_attrOf, decide_False; [done|].
    by intros [_ ?].
  - exact Hothers.
  - intros e p a He Hp. apply Hothers.
    destruct (inv_registry s (reachable_Inv s Hreach)) as (st' & Hst' & Hbuttons & Hpanels).
    assert (st' = st) as -> by congruence.
    rewrite Hbuttons. intros [_ Htab]%querySlot_slotOf.
    specialize (Hpanels e p He Hp). congruence.
  - rewrite Hloop.
    by apply (forEach_invariant cleanEntry (λ x, store x = Some st)); [intros e i x <-|].
  - by rewrite Heq.
Qed.

Lemma teardown_detaches_witness :
  listenersOf (exec __cleanStore three_tabs) "click" 0 = [] ∧
  attrOf (exec __cleanStore three_tabs) 0 "id" = None ∧
  attrOf (exec __cleanStore three_tabs) 0 "tabindex" = attrOf three_tabs 0 "tabindex" ∧
  attrOf (exec __cleanStore three_tabs) 1 "id" = attrOf three_tabs 1 "id".
Proof.
  destruct (teardown_detaches three_tabs three_entries three_tabs_reachable
              three_tabs_store) as (_ & Hls & Hgone & Hkept & _ & Hpanels & _).
  split; [exact (proj1 (Hls 0))|]. split; [|split].
  - apply (Hgone (mkEntry "0" 0 (Some 1) (mkFn 0 (ClickHandler 0)) (mkFn 1 KeydownHandler))).
    + by left.
    + by left.
  - apply Hkept. apply (bool_decide_unpack _). by vm_compute.
  - apply (Hpanels (mkEntry "0" 0 (Some 1) (mkFn 0 (ClickHandler 0)) (mkFn 1 KeydownHandler))).
    + by left.
    + reflexivity.
Defined.

End TabsProofs.
